(** * Verification of the Debian copyright-file parser (debian-control-file-rs)

    A shallow embedding of the nom combinators used by the crate, of the
    generic control-file tokenizer ([src/control_file.rs]) and of the
    copyright-file paragraph assemblers ([src/copyright_file]).

    A nom parser over [&str] is a function from the input to either
    [Ok((rest, output))] or an error.  None of the parsers here uses [cut],
    so every error is the recoverable [Err::Error]; it is modelled by [None].
    Rust string slices are modelled by Rocq strings of (ASCII) characters; a
    slice returned by a parser is its content. *)

From Stdlib Require Import String Ascii List Bool Arith Lia.
Import ListNotations.
Open Scope char_scope.
Open Scope string_scope.

Module Nom.

Definition IResult (A : Type) : Type := option (string * A).
Definition Parser (A : Type) : Type := string -> IResult A.

(** Character classes of nom for [char]. *)

(** [space0]/[space1]: space or tab. *)
Definition is_space (c : ascii) : bool := Ascii.eqb c " " || Ascii.eqb c "009".

(** [AsChar::is_alphanum] for [char]: ASCII letters and digits. *)
Definition is_alphanum (c : ascii) : bool :=
  let n := nat_of_ascii c in
  (Nat.leb 48 n && Nat.leb n 57) || (Nat.leb 65 n && Nat.leb n 90) || (Nat.leb 97 n && Nat.leb n 122).

Definition is_nl_or_cr (c : ascii) : bool := Ascii.eqb c "010" || Ascii.eqb c "013".

Definition nl : string := String "010" EmptyString.
Definition crlf : string := String "013" nl.

(** Longest prefix of characters satisfying [p], and the rest. *)
Fixpoint span (p : ascii -> bool) (s : string) : string * string :=
  match s with
  | EmptyString => (EmptyString, EmptyString)
  | String c s' =>
      if p c then let (a, b) := span p s' in (String c a, b) else (EmptyString, s)
  end.

(** Same, taking at most [n] characters. *)
Fixpoint span_max (n : nat) (p : ascii -> bool) (s : string) : string * string :=
  match n, s with
  | O, _ => (EmptyString, s)
  | S _, EmptyString => (EmptyString, EmptyString)
  | S n', String c s' =>
      if p c then let (a, b) := span_max n' p s' in (String c a, b) else (EmptyString, s)
  end.

Fixpoint strip_prefix (t s : string) : option string :=
  match t with
  | EmptyString => Some s
  | String c t' =>
      match s with
      | EmptyString => None
      | String d s' => if Ascii.eqb c d then strip_prefix t' s' else None
      end
  end.

(** ** Basic parsers (nom::bytes::complete, nom::character::complete) *)

Definition take_while (p : ascii -> bool) : Parser string :=
  fun s => let (a, b) := span p s in Some (b, a).

Definition take_while1 (p : ascii -> bool) : Parser string :=
  fun s => let (a, b) := span p s in
           match a with EmptyString => None | _ => Some (b, a) end.

Definition take_while_m_n (m n : nat) (p : ascii -> bool) : Parser string :=
  fun s => let (a, b) := span_max n p s in
           if Nat.leb m (String.length a) then Some (b, a) else None.

Definition tag (t : string) : Parser string :=
  fun s => match strip_prefix t s with Some r => Some (r, t) | None => None end.

Definition char (c : ascii) : Parser ascii :=
  fun s => match s with
           | String d s' => if Ascii.eqb c d then Some (s', c) else None
           | EmptyString => None
           end.

Definition eof : Parser string :=
  fun s => match s with EmptyString => Some (EmptyString, EmptyString) | _ => None end.

(** [line_ending]: ["\n"] or ["\r\n"]. *)
Definition line_ending : Parser string :=
  fun s => match s with
           | String "010" r => Some (r, nl)
           | String "013" (String "010" r) => Some (r, crlf)
           | _ => None
           end.

(** [not_line_ending] (complete): everything up to the first ['\n'] or
    ['\r']; an error when that first one is a ['\r'] not followed by ['\n']. *)
Definition not_line_ending : Parser string :=
  fun s => let (a, b) := span (fun c => negb (is_nl_or_cr c)) s in
           match b with
           | String "013" (String "010" _) => Some (b, a)
           | String "013" _ => None
           | _ => Some (b, a)
           end.

Definition space0 : Parser string := take_while is_space.
Definition space1 : Parser string := take_while1 is_space.
Definition alphanumeric1 : Parser string := take_while1 is_alphanum.

(** ** Combinators *)

Definition alt {A} (p q : Parser A) : Parser A :=
  fun s => match p s with Some x => Some x | None => q s end.

Definition opt {A} (p : Parser A) : Parser (option A) :=
  fun s => match p s with Some (r, a) => Some (r, Some a) | None => Some (s, None) end.

Definition map {A B} (f : A -> B) (p : Parser A) : Parser B :=
  fun s => match p s with Some (r, a) => Some (r, f a) | None => None end.

Definition value {A B} (v : B) (p : Parser A) : Parser B := map (fun _ => v) p.

Definition pair {A B} (p : Parser A) (q : Parser B) : Parser (A * B) :=
  fun s => match p s with
           | Some (r, a) => match q r with Some (r', b) => Some (r', (a, b)) | None => None end
           | None => None
           end.

Definition tuple3 {A B C} (p : Parser A) (q : Parser B) (u : Parser C) : Parser (A * B * C) :=
  fun s => match p s with
           | Some (r, a) =>
               match q r with
               | Some (r', b) =>
                   match u r' with Some (r'', c) => Some (r'', (a, b, c)) | None => None end
               | None => None
               end
           | None => None
           end.

Definition preceded {A B} (p : Parser A) (q : Parser B) : Parser B := map snd (pair p q).
Definition terminated {A B} (p : Parser A) (q : Parser B) : Parser A := map fst (pair p q).
Definition separated_pair {A B C} (p : Parser A) (sep : Parser B) (q : Parser C) : Parser (A * C) :=
  map (fun '(a, (_, c)) => (a, c)) (pair p (pair sep q)).
Definition delimited {A B C} (p : Parser A) (q : Parser B) (u : Parser C) : Parser B :=
  map (fun '(_, b, _) => b) (tuple3 p q u).

(** [recognize]: the consumed slice. *)
Definition recognize {A} (p : Parser A) : Parser string :=
  fun s => match p s with
           | Some (r, _) => Some (r, substring 0 (String.length s - String.length r) s)
           | None => None
           end.

Definition peek {A} (p : Parser A) : Parser A :=
  fun s => match p s with Some (_, a) => Some (s, a) | None => None end.

Definition flat_map {A B} (p : Parser A) (f : A -> Parser B) : Parser B :=
  fun s => match p s with Some (r, a) => f a r | None => None end.

(** [map_parser p q]: [q] runs on the output of [p]; what [q] leaves is dropped. *)
Definition map_parser {B} (p : Parser string) (q : Parser B) : Parser B :=
  fun s => match p s with
           | Some (r, a) => match q a with Some (_, b) => Some (r, b) | None => None end
           | None => None
           end.

(** [many0]: applies [p] until it fails; an application that succeeds
    without consuming input is an error (nom's infinite-loop check).  Every
    successful step shortens the input, so [String.length s + 1] rounds of fuel
    are enough (see [many0_unfold]). *)
Fixpoint many0_fuel {A} (fuel : nat) (p : Parser A) (s : string) : IResult (list A) :=
  match fuel with
  | O => None
  | S fuel' =>
      match p s with
      | None => Some (s, [])
      | Some (r, a) =>
          if Nat.ltb (String.length r) (String.length s) then
            match many0_fuel fuel' p r with
            | Some (r', xs) => Some (r', a :: xs)
            | None => None
            end
          else None
      end
  end.

Definition many0 {A} (p : Parser A) : Parser (list A) :=
  fun s => many0_fuel (S (String.length s)) p s.

(** [many1]: the first application has no progress check in nom. *)
Definition many1 {A} (p : Parser A) : Parser (list A) :=
  fun s => match p s with
           | None => None
           | Some (r, a) =>
               match many0 p r with Some (r', xs) => Some (r', a :: xs) | None => None end
           end.

(** [permutation]: nom's loop over a tuple of parsers, here over a list of
    parsers into a common result type.  A pass tries, in tuple order, every
    parser that has not matched yet; the first success is recorded and the
    pass restarts.  If every unmatched parser errors, the permutation errors;
    when all have matched, it succeeds. *)
Inductive pass_result (V : Type) : Type :=
| Progress (rest : string) (res : list (option V))
| AllMatched
| Stuck.
Arguments Progress {V}.
Arguments AllMatched {V}.
Arguments Stuck {V}.

Fixpoint perm_pass {V} (ps : list (Parser V)) (res : list (option V)) (s : string)
  : pass_result V :=
  match ps, res with
  | p :: ps', None :: res' =>
      match p s with
      | Some (r, v) => Progress r (Some v :: res')
      | None =>
          match perm_pass ps' res' s with
          | Progress r res'' => Progress r (None :: res'')
          | _ => Stuck
          end
      end
  | _ :: ps', Some v :: res' =>
      match perm_pass ps' res' s with
      | Progress r res'' => Progress r (Some v :: res'')
      | x => x
      end
  | _, _ => AllMatched
  end.

Fixpoint perm_loop {V} (fuel : nat) (ps : list (Parser V)) (res : list (option V)) (s : string)
  : IResult (list (option V)) :=
  match fuel with
  | O => None
  | S fuel' =>
      match perm_pass ps res s with
      | Progress r res' => perm_loop fuel' ps res' r
      | AllMatched => Some (s, res)
      | Stuck => None
      end
  end.

(** Each progress fills one more slot, so [List.length ps + 1] passes suffice. *)
Definition permutation {V} (ps : list (Parser V)) : Parser (list (option V)) :=
  fun s => perm_loop (S (List.length ps)) ps (List.map (fun _ => None) ps) s.

End Nom.

(** * src/control_file.rs *)
Module ControlFile.
Import Nom.

Definition field_name : Parser string :=
  terminated
    (recognize (pair alphanumeric1 (many0 (alt alphanumeric1 (tag "-")))))
    (char ":").

Definition my_non_line_ending : Parser string :=
  take_while (fun c => negb (is_nl_or_cr c)).

Definition end_of_line_or_string : Parser string := alt eof line_ending.

Definition line : Parser string :=
  recognize (pair my_non_line_ending end_of_line_or_string).

(** The lines of a paragraph: every line with at least one character,
    terminated by a line ending or by the end of input. *)
Definition paragraph : Parser (list string) :=
  let at_least_one_non_lineending : Parser string :=
    take_while1 (fun c => negb (is_nl_or_cr c)) in
  many0 (alt (recognize (pair at_least_one_non_lineending line_ending))
             (recognize (pair at_least_one_non_lineending eof))).

Definition rest_of_line : Parser string :=
  recognize (pair (opt not_line_ending) end_of_line_or_string).

Definition continuation_line : Parser string :=
  recognize (tuple3 space1 my_non_line_ending end_of_line_or_string).

Definition field_pair : Parser (string * string) :=
  separated_pair field_name space0
    (recognize (pair rest_of_line (many0 continuation_line))).

Definition field_string : Parser string := recognize field_pair.

(** creates a parser for a field name *)
Definition specific_field_name (name : string) : Parser unit :=
  value tt (map_parser field_name (tag name)).

(** creates a parser for a single-line field with a specific name; the
    value includes the trailing line ending. *)
Definition named_single_line_field (name : string) : Parser string :=
  preceded (pair (specific_field_name name) space0) rest_of_line.

(** creates a parser for a possibly-multi-line field with a specific name. *)
Definition named_multi_line_field (name : string) : Parser string :=
  preceded (pair (specific_field_name name) space0)
    (recognize (pair rest_of_line (many0 continuation_line))).

(** The alternative applied to each continuation line inside
    [clean_continuation_lines indent]: a lone ["."] after some blanks is the
    blank-line escape; otherwise the exact indent, or else 1 to
    [max_indent] spaces, are stripped and the rest of the line kept. *)
Definition clean_continuation_line (indent : string) : Parser string :=
  let max_indent := String.length indent in
  let take_up_to_max_indent : Parser unit :=
    value tt (take_while_m_n 1 max_indent (fun c => Ascii.eqb c " ")) in
  let take_indent : Parser unit := value tt (tag indent) in
  alt (preceded (pair space1 (tag ".")) end_of_line_or_string)
      (preceded (alt take_indent take_up_to_max_indent) rest_of_line).

(** creates a parser to clean a continuation line with the given initial indent *)
Definition clean_continuation_lines (indent : string) : Parser (list string) :=
  many1 (clean_continuation_line indent).

(** Cleans a multi-line string, assuming that the first newline is on the
    same line as the field name. *)
Definition clean_multiline : Parser (list string) :=
  map (fun '(first_line, v) => first_line :: v)
      (pair line (flat_map (peek space1) clean_continuation_lines)).

End ControlFile.

(** * src/copyright_file *)
Module CopyrightFileParser.
Import Nom ControlFile.

(** The ASCII part of Rust's [char::is_whitespace]. *)
Definition is_whitespace (c : ascii) : bool :=
  let n := nat_of_ascii c in (Nat.leb 9 n && Nat.leb n 13) || Nat.eqb n 32.

(** [str::trim_start], [str::trim_end], [str::trim]. *)
Definition trim_start (s : string) : string := snd (span is_whitespace s).

Fixpoint trim_end (s : string) : string :=
  match s with
  | EmptyString => EmptyString
  | String c s' =>
      let t := trim_end s' in
      match t with
      | EmptyString => if is_whitespace c then EmptyString else String c EmptyString
      | _ => String c t
      end
  end.

Definition trim (s : string) : string := trim_end (trim_start s).

(** ** src/copyright_file/fields.rs *)
Module Fields.

Inductive Format : Type := mkFormat (v : string).
Inductive UpstreamName : Type := mkUpstreamName (v : string).
Inductive UpstreamContact : Type := mkUpstreamContact (v : string).
Inductive Source : Type := mkSource (v : string).
Inductive Disclaimer : Type := mkDisclaimer (v : string).
Inductive Comment : Type := mkComment (v : string).
Inductive License : Type := mkLicense (v : string).
Inductive Copyright : Type := mkCopyright (v : list string).
Inductive Files : Type := mkFiles (v : list string).

(** Modelled from the spec: [multi_line_field::<T>], imported by
    [fields.rs] from [control_file] but absent from
    [src/control_file.rs].  Spec 4.3 describes it as
    [named_multi_line_field] at the field's [NAME]: the name, optional
    whitespace, then the first line plus all directly-following continuation
    lines, raw, as one slice. *)
Definition multi_line_field (name : string) : Parser string :=
  named_multi_line_field name.

(** The blanket [ParseField] impl for [SingleLineField + From<String>]. *)
Definition single_line_parse {T} (name : string) (mk : string -> T) : Parser T :=
  map mk (named_single_line_field name).

Definition Format_parse : Parser Format := single_line_parse "Format" mkFormat.
Definition UpstreamName_parse : Parser UpstreamName :=
  single_line_parse "Upstream-Name" mkUpstreamName.
Definition UpstreamContact_parse : Parser UpstreamContact :=
  single_line_parse "Upstream-Contact" mkUpstreamContact.
Definition Source_parse : Parser Source := single_line_parse "Source" mkSource.

Definition Disclaimer_parse : Parser Disclaimer :=
  map mkDisclaimer (multi_line_field "Disclaimer").
Definition Comment_parse : Parser Comment :=
  map mkComment (multi_line_field "Comment").
Definition License_parse : Parser License :=
  map mkLicense (multi_line_field "License").

Definition parse_field_with_trimmed_list (name : string) : Parser (list string) :=
  map (fun lines =>
         filter (fun s => negb (String.eqb s EmptyString)) (List.map trim lines))
      (many1 (multi_line_field name)).

Definition Copyright_parse : Parser Copyright :=
  map mkCopyright (parse_field_with_trimmed_list "Copyright").
Definition Files_parse : Parser Files :=
  map mkFiles (parse_field_with_trimmed_list "Files").

End Fields.
Import Fields.

(** ** src/copyright_file/mod.rs *)

Module HeaderParagraph.
Record t : Type := mk {
  format : Format;
  upstream_name : option UpstreamName;
  upstream_contact : option UpstreamContact;
  source : option Source;
  disclaimer : option Disclaimer;
  comment : option Comment;
  license : option License;
  copyright : option Copyright
}.
End HeaderParagraph.

(** The element types of the tuple given to [permutation] in
    [header_paragraph], as one sum type. *)
Inductive HeaderField : Type :=
| HF_format (v : Format)
| HF_upstream_name (v : option UpstreamName)
| HF_upstream_contact (v : option UpstreamContact)
| HF_source (v : option Source)
| HF_disclaimer (v : option Disclaimer)
| HF_comment (v : option Comment)
| HF_license (v : option License)
| HF_copyright (v : option Copyright).

Definition header_paragraph : Parser HeaderParagraph.t :=
  fun s =>
    match permutation
            [ map HF_format Format_parse;
              map HF_upstream_name (opt UpstreamName_parse);
              map HF_upstream_contact (opt UpstreamContact_parse);
              map HF_source (opt Source_parse);
              map HF_disclaimer (opt Disclaimer_parse);
              map HF_comment (opt Comment_parse);
              map HF_license (opt License_parse);
              map HF_copyright (opt Copyright_parse) ] s with
    | Some (r, [Some (HF_format format); Some (HF_upstream_name upstream_name);
                Some (HF_upstream_contact upstream_contact); Some (HF_source source);
                Some (HF_disclaimer disclaimer); Some (HF_comment comment);
                Some (HF_license license); Some (HF_copyright copyright)]) =>
        Some (r, HeaderParagraph.mk format upstream_name upstream_contact source
                   disclaimer comment license copyright)
    | _ => None
    end.

Module FilesParagraph.
Record t : Type := mk {
  files : Files;
  copyright : Copyright;
  license : License;
  comment : option Comment
}.
End FilesParagraph.

Inductive FilesField : Type :=
| FF_files (v : Files)
| FF_copyright (v : Copyright)
| FF_license (v : License)
| FF_comment (v : option Comment).

Definition files_paragraph : Parser FilesParagraph.t :=
  fun s =>
    match permutation
            [ map FF_files Files_parse;
              map FF_copyright Copyright_parse;
              map FF_license License_parse;
              map FF_comment (opt Comment_parse) ] s with
    | Some (r, [Some (FF_files files); Some (FF_copyright copyright);
                Some (FF_license license); Some (FF_comment comment)]) =>
        Some (r, FilesParagraph.mk files copyright license comment)
    | _ => None
    end.

Module LicenseDetailParagraph.
Record t : Type := mk { name : string; text : string }.
End LicenseDetailParagraph.

(** Modelled from the spec: [cleaned_multiline], imported by [mod.rs] from
    [control_file] but absent from [src/control_file.rs].  Spec 4.2: the
    multiline cleaner, whose result is just the first line when there are
    no continuation lines. *)
Definition cleaned_multiline : Parser (list string) :=
  alt clean_multiline
      (map (fun l => [l]) (recognize (pair my_non_line_ending end_of_line_or_string))).

(** [iter.next().unwrap()] on the cleaned lines; the cleaner always returns
    the first line, an empty list (a panic in Rust) is a failure here. *)
Definition license_detail_paragraph : Parser LicenseDetailParagraph.t :=
  fun s =>
    match map_parser (named_multi_line_field "License") cleaned_multiline s with
    | Some (r, first :: rest) =>
        Some (r, LicenseDetailParagraph.mk first
                   (String.concat nl (List.map trim_end rest)))
    | _ => None
    end.

Module BodyParagraph.
Inductive t : Type :=
| Files (v : FilesParagraph.t)
| LicenseDetail (v : LicenseDetailParagraph.t).
End BodyParagraph.

Definition body_paragraph : Parser BodyParagraph.t :=
  preceded (many0 (pair space0 line_ending))
    (alt (map BodyParagraph.Files files_paragraph)
         (map BodyParagraph.LicenseDetail license_detail_paragraph)).

Module CopyrightFile.
Record t : Type := mk {
  header_paragraph : HeaderParagraph.t;
  body_paragraphs : list BodyParagraph.t
}.
End CopyrightFile.

Definition copyright_file : Parser CopyrightFile.t :=
  map (fun '(header_paragraph, body_paragraphs) =>
         CopyrightFile.mk header_paragraph body_paragraphs)
      (delimited (many0 (pair space0 line_ending))
                 (pair header_paragraph (many0 body_paragraph))
                 space0).

End CopyrightFileParser.

(** * src/parser.rs *)
Module ParserRs.

(** Module [control_file] of [src/parser.rs].  Its [field_name],
    [my_non_line_ending], [end_of_line_or_string], [line], [rest_of_line],
    [continuation_line], [field_pair], [field_string] and the field and
    cleaning parsers are textually those of [src/control_file.rs] and are
    reused from [ControlFile]; [paragraph] and [field] differ. *)
Module control_file.
Import Nom.

Definition paragraph : Parser (list string) :=
  many0 (recognize (alt (pair not_line_ending line_ending)
                        (pair (take_while1 (fun c => negb (is_nl_or_cr c))) eof))).

Record Field : Type := mkField { field_name : string; value : string }.

Definition field : Parser Field :=
  map (fun '(field_name, value) => mkField field_name value)
      (separated_pair ControlFile.field_name space0
         (recognize (pair ControlFile.rest_of_line (many0 ControlFile.continuation_line)))).

End control_file.
End ParserRs.

(** * Vocabulary for the statements *)
Module Props.
Import Nom.

(** Every character of [s] satisfies [p]. *)
Fixpoint sforall (p : ascii -> bool) (s : string) : bool :=
  match s with
  | EmptyString => true
  | String c s' => p c && sforall p s'
  end.

(** [s] contains neither ['\n'] nor ['\r']. *)
Definition no_line_break (s : string) : bool := sforall (fun c => negb (is_nl_or_cr c)) s.

Definition starts_with (p : ascii -> bool) (s : string) : bool :=
  match s with String c _ => p c | EmptyString => false end.

Fixpoint spaces (n : nat) : string :=
  match n with O => EmptyString | S n' => String " " (spaces n') end.

(** [eol] is a line terminator followed by [t], or the end of input. *)
Definition eol_split (eol t : string) : Prop :=
  eol = nl \/ eol = crlf \/ (eol = EmptyString /\ t = EmptyString).

(** [[A-Za-z0-9][A-Za-z0-9-]*] *)
Definition valid_field_name (n : string) : bool :=
  match n with
  | String c cs => is_alphanum c && sforall (fun d => is_alphanum d || Ascii.eqb d "-") cs
  | EmptyString => false
  end.

(** The eight field names recognized in a header stanza. *)
Definition header_names : list string :=
  ["Format"; "Upstream-Name"; "Upstream-Contact"; "Source"; "Disclaimer";
   "Comment"; "License"; "Copyright"].

(** The two alternatives of [clean_continuation_line], named. *)
Definition blank_line_escape : Parser string :=
  preceded (pair space1 (tag ".")) ControlFile.end_of_line_or_string.

Definition strip_indent (indent : string) : Parser string :=
  preceded (alt (value tt (tag indent))
                (value tt (take_while_m_n 1 (String.length indent) (fun c => Ascii.eqb c " "))))
           ControlFile.rest_of_line.

(** [l] is one line: characters other than ['\n'] and ['\r'], then a
    line ending or nothing. *)
Definition one_line (l : string) : Prop :=
  exists w eol, l = w ++ eol /\ no_line_break w = true /\
                (eol = EmptyString \/ eol = nl \/ eol = crlf).

(** The first line of [s] ends in a ['\r'] not followed by ['\n']. *)
Definition lone_cr_at (s : string) : Prop :=
  exists w b, s = w ++ String "013" b /\ no_line_break w = true /\
              starts_with (fun c => Ascii.eqb c "010") b = false.

(** [l] is a blank line: spaces and tabs, then a line ending. *)
Definition blank_line (l : string) : bool :=
  let b := snd (span is_space l) in String.eqb b nl || String.eqb b crlf.

(** [s] starts with a blank line. *)
Definition starts_blank_line (s : string) : bool :=
  match snd (span is_space s) with
  | String "010" _ => true
  | String "013" (String "010" _) => true
  | _ => false
  end.

End Props.

(** * General facts about the embedding *)
Module Facts.
Import Nom ControlFile Props.

Lemma slen_app (x y : string) : String.length (x ++ y) = String.length x + String.length y.
Proof. induction x as [|c x IH]; simpl; [reflexivity | now rewrite IH]. Qed.

Lemma substring_app (x y : string) : substring 0 (String.length x) (x ++ y) = x.
Proof. induction x as [|c x IH]; simpl; [now destruct y | now rewrite IH]. Qed.

Lemma app_nil_r_s (x : string) : x ++ EmptyString = x.
Proof. induction x as [|c x IH]; simpl; [reflexivity | now rewrite IH]. Qed.

Lemma app_assoc_s (x y z : string) : (x ++ y) ++ z = x ++ (y ++ z).
Proof. induction x as [|c x IH]; simpl; [reflexivity | now rewrite IH]. Qed.

Lemma recognize_app {A} (p : Parser A) (x r : string) (a : A) :
  p (x ++ r) = Some (r, a) -> recognize p (x ++ r) = Some (r, x).
Proof.
  intro H. unfold recognize. rewrite H, slen_app.
  replace (String.length x + String.length r - String.length r) with (String.length x) by lia.
  now rewrite substring_app.
Qed.

Lemma strip_prefix_app (t s : string) : strip_prefix t (t ++ s) = Some s.
Proof.
  induction t as [|c t IH]; simpl; [reflexivity|].
  now rewrite Ascii.eqb_refl.
Qed.

(** [span] stops at a character failing [p], or at the end. *)
Definition stops (p : ascii -> bool) (z : string) : Prop :=
  z = EmptyString \/ exists c z', z = String c z' /\ p c = false.

Lemma span_app (p : ascii -> bool) (x z : string) :
  stops p z -> span p (x ++ z) = (fst (span p x), snd (span p x) ++ z).
Proof.
  intro Hz. induction x as [|c x IH]; simpl.
  - destruct Hz as [-> | [c [z' [-> Hc]]]]; simpl; [reflexivity | now rewrite Hc].
  - destruct (p c); [|reflexivity].
    rewrite IH. destruct (span p x); reflexivity.
Qed.

Lemma span_all (p : ascii -> bool) (x z : string) :
  sforall p x = true -> span p (x ++ z) = (x ++ fst (span p z), snd (span p z)).
Proof.
  induction x as [|c x IH]; simpl; intro H.
  - now destruct (span p z).
  - apply andb_prop in H as [Hc Hx]. rewrite Hc, (IH Hx). reflexivity.
Qed.

Lemma span_spec (p : ascii -> bool) (s a b : string) :
  span p s = (a, b) -> s = a ++ b /\ sforall p a = true /\ stops p b.
Proof.
  revert a b. induction s as [|c s IH]; simpl; intros a b H.
  - inversion H; subst. repeat split. now left.
  - destruct (p c) eqn:Hc.
    + destruct (span p s) as [a' b'] eqn:E.
      destruct (IH a' b' eq_refl) as [Hs [Ha Hb]].
      inversion H; subst. simpl. rewrite Hc, Ha. auto.
    + inversion H; subst. repeat split. right. eauto.
Qed.

Lemma many0_fuel_stop {A} (p : Parser A) (n : nat) (s r : string) (xs : list A) :
  many0_fuel n p s = Some (r, xs) -> p r = None.
Proof.
  revert s xs. induction n as [|n IH]; simpl; intros s xs H; [discriminate|].
  destruct (p s) as [[r1 a]|] eqn:E.
  - destruct (Nat.ltb _ _); [|discriminate].
    destruct (many0_fuel n p r1) as [[r2 ys]|] eqn:E2; [|discriminate].
    inversion H; subst. eapply IH; eauto.
  - inversion H; subst. exact E.
Qed.

Lemma many0_stop {A} (p : Parser A) (s r : string) (xs : list A) :
  many0 p s = Some (r, xs) -> p r = None.
Proof. apply many0_fuel_stop. Qed.

Lemma many0_fuel_enough {A} (p : Parser A) (n m : nat) (s : string) :
  String.length s < n -> String.length s < m -> many0_fuel n p s = many0_fuel m p s.
Proof.
  revert m s. induction n as [|n IH]; intros m s Hn Hm; [lia|].
  destruct m as [|m]; [lia|]. simpl.
  destruct (p s) as [[r a]|]; [|reflexivity].
  destruct (Nat.ltb (String.length r) (String.length s)) eqn:E; [|reflexivity].
  apply Nat.ltb_lt in E. rewrite (IH m r); [reflexivity | lia | lia].
Qed.

(** The unfolding equation of [many0]: the fuel is never the limit. *)
Lemma many0_unfold {A} (p : Parser A) (s : string) :
  many0 p s =
  match p s with
  | None => Some (s, [])
  | Some (r, a) =>
      if Nat.ltb (String.length r) (String.length s) then
        match many0 p r with Some (r', xs) => Some (r', a :: xs) | None => None end
      else None
  end.
Proof.
  unfold many0 at 1. simpl.
  destruct (p s) as [[r a]|]; [|reflexivity].
  destruct (Nat.ltb (String.length r) (String.length s)) eqn:E; [|reflexivity].
  apply Nat.ltb_lt in E. unfold many0.
  rewrite (many0_fuel_enough p (String.length s) (S (String.length r))); [reflexivity | lia | lia].
Qed.

(** ** Blanks *)

Lemma sforall_spaces (k : nat) : sforall is_space (spaces k) = true.
Proof. induction k; simpl; auto. Qed.

Lemma spaces_add (m n : nat) : spaces (m + n) = spaces m ++ spaces n.
Proof. induction m; simpl; [reflexivity | now rewrite IHm]. Qed.

Lemma span_spaces (k : nat) (x : string) :
  span is_space (spaces k ++ x) = (spaces k ++ fst (span is_space x), snd (span is_space x)).
Proof. apply span_all, sforall_spaces. Qed.

Lemma space1_spaces (k : nat) (x : string) : 1 <= k ->
  space1 (spaces k ++ x) = Some (snd (span is_space x), spaces k ++ fst (span is_space x)).
Proof.
  intro Hk. unfold space1, take_while1. rewrite span_spaces.
  destruct k; [lia|]. reflexivity.
Qed.

Lemma eol_ok (eol t : string) :
  eol_split eol t -> end_of_line_or_string (eol ++ t) = Some (t, eol).
Proof.
  intros [-> | [-> | [-> ->]]]; reflexivity.
Qed.

Lemma sforall_app (p : ascii -> bool) (x y : string) :
  sforall p (x ++ y) = sforall p x && sforall p y.
Proof. induction x as [|c x IH]; simpl; [reflexivity | now rewrite IH, andb_assoc]. Qed.

Lemma slen_spaces (k : nat) : String.length (spaces k) = k.
Proof. induction k; simpl; auto. Qed.

Lemma no_line_break_spaces (k : nat) : no_line_break (spaces k) = true.
Proof. induction k; simpl; auto. Qed.

(** ** The multiline cleaner *)

Lemma clean_continuation_line_alt (indent s : string) :
  clean_continuation_line indent s = alt blank_line_escape (strip_indent indent) s.
Proof. reflexivity. Qed.

Lemma escape_indep (k k' : nat) (x : string) : 1 <= k -> 1 <= k' ->
  blank_line_escape (spaces k ++ x) = blank_line_escape (spaces k' ++ x).
Proof.
  intros. unfold blank_line_escape, preceded, map, pair.
  rewrite !space1_spaces by assumption.
  destruct (tag "." _) as [[r ?]|];
    [destruct (end_of_line_or_string r) as [[? ?]|]|]; reflexivity.
Qed.

Lemma escape_dot (k : nat) (eol t : string) : 1 <= k -> eol_split eol t ->
  blank_line_escape (spaces k ++ "." ++ eol ++ t) = Some (t, eol).
Proof.
  intros Hk He. unfold blank_line_escape, preceded, map, pair.
  rewrite space1_spaces by assumption. simpl.
  rewrite eol_ok by assumption. reflexivity.
Qed.

Lemma eol_stops (eol t : string) :
  eol_split eol t -> forall p, (forall c, is_nl_or_cr c = true -> p c = false) -> stops p (eol ++ t).
Proof.
  intros [-> | [-> | [-> ->]]] p Hp; [right | right | left]; simpl; eauto.
Qed.

(** A dot not followed by the end of its line is no escape. *)
Lemma escape_none (k : nat) (content eol t : string) :
  1 <= k -> no_line_break content = true -> snd (span is_space content) <> "." ->
  eol_split eol t -> blank_line_escape (spaces k ++ content ++ eol ++ t) = None.
Proof.
  intros Hk Hc Hd He. unfold blank_line_escape, preceded, map, pair.
  rewrite space1_spaces by assumption.
  rewrite span_app by (apply eol_stops; [assumption | intros c; now destruct c as [[] [] [] [] [] [] [] []]]).
  destruct (span is_space content) as [a b] eqn:E. simpl in Hd |- *.
  destruct (span_spec _ _ _ _ E) as [-> _].
  unfold no_line_break in Hc. rewrite sforall_app in Hc. apply andb_prop in Hc as [_ Hb].
  destruct b as [|c b].
  - simpl. destruct He as [-> | [-> | [-> ->]]]; reflexivity.
  - unfold tag. cbn [strip_prefix append]. destruct (Ascii.eqb "." c) eqn:Ec; [|reflexivity].
    apply Ascii.eqb_eq in Ec. subst c.
    destruct b as [|d b]; [congruence|].
    simpl in Hb. apply andb_prop in Hb as [Hd' _].
    destruct d as [[] [] [] [] [] [] [] []]; simpl in Hd'; try discriminate; reflexivity.
Qed.

(** A line whose text after its leading blanks is a lone dot is the escape,
    whatever blanks (spaces or tabs) precede the dot. *)
Lemma escape_dot_blanks (k : nat) (content eol t : string) :
  1 <= k -> snd (span is_space content) = "." -> eol_split eol t ->
  blank_line_escape (spaces k ++ content ++ eol ++ t) = Some (t, eol).
Proof.
  intros Hk Hd He. unfold blank_line_escape, preceded, map, pair.
  rewrite space1_spaces by assumption.
  rewrite span_app by (apply eol_stops; [assumption | intros c; now destruct c as [[] [] [] [] [] [] [] []]]).
  destruct (span is_space content) as [a b]. simpl in Hd |- *. subst b.
  simpl. rewrite eol_ok by assumption. reflexivity.
Qed.

Lemma strip_prefix_spaces_short (k m : nat) (x : string) :
  k < m -> starts_with (fun c => Ascii.eqb c " ") x = false ->
  strip_prefix (spaces m) (spaces k ++ x) = None.
Proof.
  revert m. induction k as [|k IH]; intros m Hkm Hx; (destruct m as [|m]; [lia|]).
  - destruct x as [|c x]; cbn [spaces append strip_prefix]; [reflexivity|].
    cbn [starts_with] in Hx. rewrite Ascii.eqb_sym, Hx. reflexivity.
  - cbn [spaces append strip_prefix]. rewrite Ascii.eqb_refl. apply IH; [lia | assumption].
Qed.

Lemma span_max_spaces (k n : nat) (x : string) :
  k <= n -> starts_with (fun c => Ascii.eqb c " ") x = false ->
  span_max n (fun c => Ascii.eqb c " ") (spaces k ++ x) = (spaces k, x).
Proof.
  revert n. induction k as [|k IH]; intros n Hkn Hx.
  - destruct n; [reflexivity|]. destruct x as [|c x]; [reflexivity|].
    cbn [starts_with] in Hx. cbn [spaces append span_max]. now rewrite Hx.
  - destruct n as [|n]; [lia|]. cbn [spaces append span_max].
    rewrite (IH n) by (lia || assumption). reflexivity.
Qed.

Lemma preceded_same {A B} (p : Parser A) (q : Parser B) (s1 s2 r : string) (a1 a2 : A) :
  p s1 = Some (r, a1) -> p s2 = Some (r, a2) -> preceded p q s1 = preceded p q s2.
Proof.
  intros H1 H2. unfold preceded, map, pair. rewrite H1, H2.
  now destruct (q r) as [[? ?]|].
Qed.

Lemma preceded_some {A B} (p : Parser A) (q : Parser B) (s r : string) (a : A) :
  p s = Some (r, a) ->
  preceded p q s = match q r with Some (r', b) => Some (r', b) | None => None end.
Proof. intro H. unfold preceded, map, pair. rewrite H. now destruct (q r) as [[? ?]|]. Qed.

Lemma strip_indent_short (k m : nat) (x : string) :
  1 <= k <= m -> starts_with (fun c => Ascii.eqb c " ") x = false ->
  strip_indent (spaces m) (spaces k ++ x) = strip_indent (spaces m) (spaces m ++ x).
Proof.
  intros Hk Hx. destruct (Nat.eq_dec k m) as [->|Hne]; [reflexivity|].
  unfold strip_indent. eapply preceded_same with (r := x) (a1 := tt) (a2 := tt).
  - unfold alt, value, map, tag, take_while_m_n.
    rewrite strip_prefix_spaces_short by (lia || assumption).
    rewrite slen_spaces, span_max_spaces by (lia || assumption).
    rewrite slen_spaces. replace (Nat.leb 1 k) with true by (symmetry; apply Nat.leb_le; lia).
    reflexivity.
  - unfold alt, value, map, tag. now rewrite strip_prefix_app.
Qed.

Lemma strip_indent_long (m j : nat) (x : string) : m <= j ->
  strip_indent (spaces m) (spaces j ++ x) =
  match rest_of_line (spaces (j - m) ++ x) with
  | Some (r, b) => Some (r, b) | None => None end.
Proof.
  intro Hmj. replace j with (m + (j - m)) at 1 by lia.
  unfold strip_indent. apply preceded_some with (a := tt).
  unfold alt, value, map, tag.
  rewrite spaces_add, app_assoc_s, strip_prefix_app. reflexivity.
Qed.

Lemma rest_of_line_app (w eol t : string) :
  no_line_break w = true -> eol_split eol t -> rest_of_line (w ++ eol ++ t) = Some (t, w ++ eol).
Proof.
  intros Hw He. unfold rest_of_line. rewrite <- app_assoc_s.
  apply (recognize_app _ _ _ (Some w, eol)). rewrite app_assoc_s.
  unfold pair, opt, not_line_ending. rewrite span_all by exact Hw.
  destruct He as [-> | [-> | [-> ->]]]; simpl; rewrite ?app_nil_r_s; reflexivity.
Qed.

Lemma line_app (w eol t : string) :
  no_line_break w = true -> eol_split eol t -> line (w ++ eol ++ t) = Some (t, w ++ eol).
Proof.
  intros Hw He. unfold line. rewrite <- app_assoc_s.
  apply (recognize_app _ _ _ (w, eol)). rewrite app_assoc_s.
  unfold pair, my_non_line_ending, take_while. rewrite span_all by exact Hw.
  destruct He as [-> | [-> | [-> ->]]]; simpl; rewrite ?app_nil_r_s; reflexivity.
Qed.

Lemma span_nostart (p : ascii -> bool) (x : string) :
  starts_with p x = false -> span p x = (EmptyString, x).
Proof. destruct x as [|c x]; simpl; [reflexivity|]. now intros ->. Qed.

(** [clean_multiline] takes its indent from the first continuation line. *)
Lemma clean_multiline_first (first eol1 x : string) (m : nat) :
  no_line_break first = true -> (eol1 = nl \/ eol1 = crlf) ->
  starts_with is_space x = false -> 1 <= m ->
  clean_multiline (first ++ eol1 ++ spaces m ++ x) =
  match clean_continuation_lines (spaces m) (spaces m ++ x) with
  | Some (r, v) => Some (r, (first ++ eol1) :: v)
  | None => None
  end.
Proof.
  intros Hf He Hx Hm. unfold clean_multiline, map, pair.
  rewrite line_app by (assumption || (unfold eol_split; tauto)).
  unfold flat_map, peek. rewrite space1_spaces by assumption.
  rewrite (span_nostart _ _ Hx). simpl fst. rewrite app_nil_r_s.
  now destruct (clean_continuation_lines _ _) as [[? ?]|].
Qed.

(** ** Field names and field values *)

Definition hy_alnum (d : ascii) : bool := is_alphanum d || Ascii.eqb d "-".

Lemma colon_stops (p : ascii -> bool) (r : string) :
  p ":"%char = false -> stops p (":" ++ r).
Proof. intro H. right. exists ":"%char, r. auto. Qed.

Lemma many0_name_chars (r : string) : forall n w,
  String.length w < n -> sforall hy_alnum w = true ->
  exists xs, many0 (alt alphanumeric1 (tag "-")) (w ++ ":" ++ r) = Some (":" ++ r, xs).
Proof.
  induction n as [|n IH]; intros w Hlen Hw; [lia|].
  rewrite many0_unfold.
  destruct w as [|c w].
  - exists []. reflexivity.
  - simpl in Hw. apply andb_prop in Hw as [Hc Hw].
    unfold hy_alnum in Hc.
    destruct (is_alphanum c) eqn:Ha.
    + destruct (span is_alphanum w) as [a b] eqn:E.
      destruct (span_spec _ _ _ _ E) as [Ew [_ _]].
      assert (A1 : alphanumeric1 (String c w ++ ":" ++ r) = Some (b ++ ":" ++ r, String c a)).
      { unfold alphanumeric1, take_while1.
        change (String c w ++ ":" ++ r) with (String c (w ++ ":" ++ r)).
        cbn [span]. rewrite Ha.
        rewrite (span_app _ w (":" ++ r)) by (apply colon_stops; reflexivity).
        rewrite E. reflexivity. }
      unfold alt at 1. rewrite A1.
      assert (Hb : sforall hy_alnum b = true).
      { rewrite Ew, sforall_app in Hw. now apply andb_prop in Hw as [_ Hb]. }
      assert (Hl : String.length b < n).
      { rewrite Ew in Hlen. simpl in Hlen. rewrite slen_app in Hlen. lia. }
      destruct (IH b) as [xs Hxs]; [exact Hl | exact Hb|].
      replace (Nat.ltb _ _) with true.
      * rewrite Hxs. eauto.
      * symmetry. apply Nat.ltb_lt. rewrite Ew. simpl. rewrite !slen_app. lia.
    + simpl in Hc. apply Ascii.eqb_eq in Hc. subst c.
      assert (A1 : alphanumeric1 (String "-" w ++ ":" ++ r) = None).
      { unfold alphanumeric1, take_while1. reflexivity. }
      assert (T1 : tag "-" (String "-" w ++ ":" ++ r) = Some (w ++ ":" ++ r, "-")).
      { unfold tag. cbn [strip_prefix append]. now rewrite Ascii.eqb_refl. }
      unfold alt at 1. rewrite A1, T1.
      destruct (IH w) as [xs Hxs]; [simpl in Hlen; lia | exact Hw|].
      replace (Nat.ltb _ _) with true.
      * rewrite Hxs. eauto.
      * symmetry. apply Nat.ltb_lt. simpl. lia.
Qed.

Lemma field_name_valid (name r : string) :
  valid_field_name name = true -> field_name (name ++ ":" ++ r) = Some (r, name).
Proof.
  intro Hv. destruct name as [|c cs]; [discriminate|].
  simpl in Hv. apply andb_prop in Hv as [Hc Hcs].
  assert (Hall : sforall hy_alnum (String c cs) = true).
  { simpl. unfold hy_alnum at 1. rewrite Hc. exact Hcs. }
  unfold field_name, terminated, map.
  assert (Hp : exists o, pair alphanumeric1 (many0 (alt alphanumeric1 (tag "-")))
                            (String c cs ++ ":" ++ r) = Some (":" ++ r, o)).
  { unfold pair at 1, alphanumeric1 at 1, take_while1.
    rewrite (span_app _ (String c cs) (":" ++ r)) by (apply colon_stops; reflexivity).
    destruct (span is_alphanum (String c cs)) as [a b] eqn:E.
    destruct (span_spec _ _ _ _ E) as [Ew [_ _]].
    assert (Ha : a <> EmptyString).
    { intros ->. simpl in E. rewrite Hc in E. destruct (span is_alphanum cs). discriminate. }
    destruct (many0_name_chars r (S (String.length b)) b) as [xs Hxs]; [lia| |].
    { rewrite Ew, sforall_app in Hall. now apply andb_prop in Hall as [_ Hb]. }
    cbn [fst snd]. destruct a; [congruence|]. rewrite Hxs. eauto. }
  destruct Hp as [o Hp].
  unfold pair at 1. rewrite (recognize_app _ _ _ _ Hp). reflexivity.
Qed.

Lemma specific_field_name_ok (name r : string) :
  valid_field_name name = true -> specific_field_name name (name ++ ":" ++ r) = Some (r, tt).
Proof.
  intro Hv. unfold specific_field_name, value, map, map_parser.
  rewrite field_name_valid by exact Hv. unfold tag.
  rewrite <- (app_nil_r_s name) at 2. now rewrite strip_prefix_app.
Qed.

Lemma specific_field_name_other (n name r : string) :
  valid_field_name name = true -> strip_prefix n name = None ->
  specific_field_name n (name ++ ":" ++ r) = None.
Proof.
  intros Hv Hn. unfold specific_field_name, value, map, map_parser.
  rewrite field_name_valid by exact Hv. unfold tag. now rewrite Hn.
Qed.

Lemma no_line_break_suffix (a b : string) : no_line_break (a ++ b) = true -> no_line_break b = true.
Proof. unfold no_line_break. rewrite sforall_app. now intros [_ H]%andb_prop. Qed.

Lemma space0_value (v eol t : string) :
  no_line_break v = true -> eol_split eol t ->
  space0 (v ++ eol ++ t) = Some (snd (span is_space v) ++ eol ++ t, fst (span is_space v)).
Proof.
  intros Hv He. unfold space0, take_while.
  rewrite span_app by (apply eol_stops; [assumption | intros c; now destruct c as [[] [] [] [] [] [] [] []]]).
  reflexivity.
Qed.

Lemma snd_span_no_line_break (v : string) :
  no_line_break v = true -> no_line_break (snd (span is_space v)) = true.
Proof.
  intro Hv. destruct (span is_space v) as [a b] eqn:E.
  destruct (span_spec _ _ _ _ E) as [-> _]. simpl. eapply no_line_break_suffix; eauto.
Qed.

(** A single-line field: the separator blanks are dropped, the value keeps
    its terminator. *)
Lemma single_line_value (name v eol t : string) :
  valid_field_name name = true -> no_line_break v = true -> eol_split eol t ->
  named_single_line_field name (name ++ ":" ++ v ++ eol ++ t) =
  Some (t, snd (span is_space v) ++ eol).
Proof.
  intros Hn Hv He. unfold named_single_line_field.
  rewrite (preceded_some _ _ _ (snd (span is_space v) ++ eol ++ t) (tt, fst (span is_space v))).
  - rewrite rest_of_line_app; [reflexivity | apply snd_span_no_line_break, Hv | exact He].
  - unfold pair. rewrite specific_field_name_ok by exact Hn.
    rewrite space0_value by assumption. reflexivity.
Qed.

Lemma space_no_break (x : string) : sforall is_space x = true -> no_line_break x = true.
Proof.
  induction x as [|c x IH]; simpl; [reflexivity|].
  intros [Hc Hx]%andb_prop. unfold is_space in Hc.
  apply orb_prop in Hc as [Hc|Hc]; apply Ascii.eqb_eq in Hc; subst c; simpl; auto.
Qed.

(** Where [many0 continuation_line] stops. *)
Lemma continuation_line_none (r : string) :
  continuation_line r = None ->
  r = EmptyString \/ starts_with (fun c => negb (is_space c)) r = true \/
  exists w b, r = w ++ String "013" b /\ no_line_break w = true /\
              starts_with (fun c => Ascii.eqb c "010") b = false.
Proof.
  intro H. destruct r as [|c r']; [left; reflexivity|].
  destruct (is_space c) eqn:Hc; [|right; left; simpl; now rewrite Hc].
  right; right.
  unfold continuation_line, recognize, tuple3 in H.
  destruct (span is_space r') as [f g] eqn:E1.
  assert (S1 : space1 (String c r') = Some (g, String c f)).
  { unfold space1, take_while1. simpl. rewrite Hc, E1. reflexivity. }
  rewrite S1 in H. unfold my_non_line_ending, take_while in H.
  destruct (span (fun c => negb (is_nl_or_cr c)) g) as [a b] eqn:E2.
  destruct (end_of_line_or_string b) as [[? ?]|] eqn:E3; [discriminate|].
  destruct (span_spec _ _ _ _ E1) as [Er' [Hf _]].
  destruct (span_spec _ _ _ _ E2) as [Eg [Ha [Hb | [d [b' [Hb Hd]]]]]].
  - subst b. discriminate.
  - subst b. apply negb_false_iff in Hd. unfold is_nl_or_cr in Hd.
    apply orb_prop in Hd as [Hd|Hd]; apply Ascii.eqb_eq in Hd; subst d; [discriminate|].
    destruct b' as [|e b''].
    + exists (String c f ++ a), EmptyString. subst. repeat split.
      * simpl. now rewrite app_assoc_s.
      * unfold no_line_break. simpl. rewrite sforall_app.
        apply space_no_break in Hf. unfold no_line_break in Hf. rewrite Hf, Ha.
        unfold is_space in Hc. apply orb_prop in Hc as [Hc|Hc]; apply Ascii.eqb_eq in Hc; now subst c.
    + destruct (Ascii.eqb e "010") eqn:He.
      * apply Ascii.eqb_eq in He. subst e. discriminate.
      * exists (String c f ++ a), (String e b''). subst. repeat split.
        -- simpl. now rewrite app_assoc_s.
        -- unfold no_line_break. simpl. rewrite sforall_app.
           apply space_no_break in Hf. unfold no_line_break in Hf. rewrite Hf, Ha.
           unfold is_space in Hc. apply orb_prop in Hc as [Hc|Hc]; apply Ascii.eqb_eq in Hc; now subst c.
        -- simpl. exact He.
Qed.

(** ** Field parsers failing on another field *)

Lemma prefix_strip_prefix (n name : string) :
  String.prefix n name = false -> strip_prefix n name = None.
Proof.
  revert name. induction n as [|c n IH]; intros [|d name]; simpl; try discriminate; auto.
  destruct (ascii_dec c d) as [<-|Hne].
  - rewrite Ascii.eqb_refl. apply IH.
  - intros _. destruct (Ascii.eqb c d) eqn:E; [apply Ascii.eqb_eq in E; congruence | reflexivity].
Qed.

Lemma single_line_other (n s : string) :
  specific_field_name n s = None -> named_single_line_field n s = None.
Proof. intro H. unfold named_single_line_field, preceded, map, pair. now rewrite H. Qed.

Lemma multi_line_other (n s : string) :
  specific_field_name n s = None -> named_multi_line_field n s = None.
Proof. intro H. unfold named_multi_line_field, preceded, map, pair. now rewrite H. Qed.

Lemma map_some {A B} (f : A -> B) (p : Parser A) (s r : string) (a : A) :
  p s = Some (r, a) -> map f p s = Some (r, f a).
Proof. intro H. unfold map. now rewrite H. Qed.

Lemma map_opt_none {A B} (f : option A -> B) (p : Parser A) (s : string) :
  p s = None -> map f (opt p) s = Some (s, f None).
Proof. intro H. unfold map, opt. now rewrite H. Qed.

End Facts.

(** * The claims *)
Module Claims.
Import Nom ControlFile CopyrightFileParser Fields Props Facts.

(** ** C3 *)

(** C3 (counterexample): a single line with no continuation line is not
    cleaned to itself: [clean_multiline "abc"] fails. *)
Lemma clean_multiline_single_line_counterexample :
  clean_multiline "abc" <> Some (EmptyString, ["abc"]).
Proof. vm_compute. discriminate. Qed.

(** C3 (amended): [clean_multiline] needs at least one continuation line:
    on an input that is a single line (with or without its terminator) it
    fails. *)
Theorem clean_multiline_single_line_fails (w eol : string) :
  no_line_break w = true -> (eol = EmptyString \/ eol = nl \/ eol = crlf) ->
  clean_multiline (w ++ eol) = None.
Proof.
  intros Hw He.
  unfold clean_multiline, map, pair.
  rewrite <- (app_nil_r_s eol), line_app by (assumption || (unfold eol_split; tauto)).
  reflexivity.
Qed.

Lemma clean_multiline_single_line_fails_witness :
  no_line_break "abc" = true /\ clean_multiline ("abc" ++ nl) = None.
Proof.
  split; [reflexivity|].
  apply clean_multiline_single_line_fails; [reflexivity | right; left; reflexivity].
Defined.

(** ** C4 *)

(** C4 (counterexample): with nominal indent two spaces, the line
    ["    ."] indented by four is not cleaned to ["  ."]: it is the
    blank-line escape and becomes the bare terminator. *)
Lemma clean_more_indent_dot_counterexample :
  match clean_multiline ("0" ++ nl ++ "  a" ++ nl ++ "    ." ++ nl ++ "  b") with
  | Some (_, [_; _; l; _]) => l = nl /\ l <> "  ." ++ nl
  | _ => False
  end.
Proof. vm_compute. split; [reflexivity | discriminate]. Qed.

(** C4 (amended): the nominal indent is the run of [m] leading spaces of
    the first continuation line; a later continuation line indented by 1 to
    [m - 1] spaces is cleaned exactly as the same line indented by [m]; a
    line indented by [j > m] spaces has [m] of them stripped and keeps the
    [j - m] others, unless what follows its blanks is exactly ["."]: then
    it is the blank-line escape and is cleaned to its bare terminator. *)
Theorem clean_indent_tolerance (m : nat) :
  1 <= m ->
  (forall first eol1 x, no_line_break first = true -> (eol1 = nl \/ eol1 = crlf) ->
     starts_with is_space x = false ->
     clean_multiline (first ++ eol1 ++ spaces m ++ x) =
     match clean_continuation_lines (spaces m) (spaces m ++ x) with
     | Some (r, v) => Some (r, (first ++ eol1) :: v) | None => None end) /\
  (forall k x, 1 <= k < m -> starts_with (fun c => Ascii.eqb c " ") x = false ->
     clean_continuation_line (spaces m) (spaces k ++ x) =
     clean_continuation_line (spaces m) (spaces m ++ x)) /\
  (forall j content eol t, m < j -> no_line_break content = true ->
     starts_with (fun c => Ascii.eqb c " ") content = false ->
     snd (span is_space content) <> "." -> eol_split eol t ->
     clean_continuation_line (spaces m) (spaces j ++ content ++ eol ++ t) =
     Some (t, spaces (j - m) ++ content ++ eol)) /\
  (forall j content eol t, m < j -> snd (span is_space content) = "." -> eol_split eol t ->
     clean_continuation_line (spaces m) (spaces j ++ content ++ eol ++ t) = Some (t, eol)).
Proof.
  intro Hm. split; [|split; [|split]].
  - intros. now apply clean_multiline_first.
  - intros k x Hk Hx. rewrite !clean_continuation_line_alt. unfold alt.
    rewrite (escape_indep k m) by lia.
    destruct (blank_line_escape (spaces m ++ x)) as [y|]; [reflexivity|].
    apply strip_indent_short; [lia | assumption].
  - intros j content eol t Hj Hc Hs Hd He.
    rewrite clean_continuation_line_alt. unfold alt.
    rewrite escape_none by (lia || assumption).
    rewrite strip_indent_long by lia.
    rewrite <- app_assoc_s, rest_of_line_app.
    + now rewrite app_assoc_s.
    + unfold no_line_break. rewrite sforall_app. apply andb_true_intro.
      split; [apply no_line_break_spaces | exact Hc].
    + exact He.
  - intros j content eol t Hj Hd He.
    rewrite clean_continuation_line_alt. unfold alt.
    rewrite escape_dot_blanks by (lia || assumption). reflexivity.
Qed.

Lemma clean_indent_tolerance_witness :
  clean_continuation_line (spaces 2) (spaces 1 ++ "b") =
  clean_continuation_line (spaces 2) (spaces 2 ++ "b") /\
  clean_continuation_line (spaces 2) (spaces 3 ++ "b" ++ nl ++ "x") =
  Some ("x", spaces 1 ++ "b" ++ nl) /\
  clean_continuation_line (spaces 2) (spaces 3 ++ String "009" "." ++ nl ++ "x") =
  Some ("x", nl).
Proof.
  destruct (clean_indent_tolerance 2) as [_ [H1 [H2 H3]]]; [lia|].
  split; [|split].
  - apply H1; [lia | reflexivity].
  - apply H2; [lia | reflexivity | reflexivity | discriminate | left; reflexivity].
  - apply H3; [lia | reflexivity | left; reflexivity].
Defined.

(** ** C5 *)

(** C5: cleaning ["0\n  a\n    .\n  b"] consumes everything and yields
    ["0\n"; "a\n"; "\n"; "b"]. *)
Theorem clean_multiline_blank_escape_example :
  clean_multiline ("0" ++ nl ++ "  a" ++ nl ++ "    ." ++ nl ++ "  b") =
  Some (EmptyString, ["0" ++ nl; "a" ++ nl; nl; "b"]).
Proof. vm_compute. reflexivity. Qed.

(** ** C10 *)

(** C10: a continuation line of [k >= 1] spaces, a ["."] and its
    terminator (or the end of input) is cleaned to the empty logical line
    (its bare terminator), whatever the nominal indent. *)
Theorem clean_dot_line_is_blank (indent : string) (k : nat) (eol t : string) :
  1 <= k -> eol_split eol t ->
  clean_continuation_line indent (spaces k ++ "." ++ eol ++ t) = Some (t, eol).
Proof.
  intros Hk He. rewrite clean_continuation_line_alt. unfold alt.
  now rewrite escape_dot.
Qed.

Lemma clean_dot_line_is_blank_witness :
  clean_continuation_line (spaces 2) (spaces 6 ++ "." ++ nl ++ "  b") = Some ("  b", nl).
Proof. apply clean_dot_line_is_blank; [lia | left; reflexivity]. Defined.

(** ** C8 *)

(** C8 (counterexample): a value starting with a blank loses it: parsing
    ["A:  x\n"] gives ["x\n"], not [" x\n"]. *)
Lemma single_line_leading_blank_counterexample :
  named_single_line_field "A" ("A: " ++ " x" ++ nl) <> Some (EmptyString, " x" ++ nl).
Proof. vm_compute. discriminate. Qed.

(** C8 (amended): for a valid field name [N] and a value [V] without line
    breaks, [named_single_line_field N] on ["N: V\n"] consumes everything and
    yields [V] with its leading spaces and tabs removed, followed by the
    terminator; exactly ["V\n"] when [V] does not start with a space or tab. *)
Theorem single_line_field_roundtrip (N V : string) :
  valid_field_name N = true -> no_line_break V = true ->
  named_single_line_field N (N ++ ": " ++ V ++ nl) = Some (EmptyString, snd (span is_space V) ++ nl) /\
  (starts_with is_space V = false ->
   named_single_line_field N (N ++ ": " ++ V ++ nl) = Some (EmptyString, V ++ nl)).
Proof.
  intros HN HV.
  assert (E : named_single_line_field N (N ++ ": " ++ V ++ nl) =
              Some (EmptyString, snd (span is_space V) ++ nl)).
  { change (N ++ ": " ++ V ++ nl) with (N ++ ":" ++ (" " ++ V) ++ nl ++ EmptyString).
    rewrite single_line_value; [| exact HN | exact HV | left; reflexivity].
    cbn [append span]. simpl is_space. cbv iota beta.
    now destruct (span is_space V). }
  split; [exact E|].
  intro Hs. rewrite E, (span_nostart _ _ Hs). reflexivity.
Qed.

Lemma single_line_field_roundtrip_witness :
  named_single_line_field "Format" ("Format" ++ ": " ++ "abc" ++ nl) = Some (EmptyString, "abc" ++ nl).
Proof.
  apply (proj2 (single_line_field_roundtrip "Format" "abc" eq_refl eq_refl)). reflexivity.
Defined.

(** ** C9 *)

Definition lone_cr_input : string := "A: x" ++ nl ++ " " ++ String "013" "b".

(** C9 (counterexample): a continuation line whose line ends in a lone
    ['\r'] is not consumed: the rest after the field begins with a space. *)
Lemma field_rest_lone_cr_counterexample :
  exists r o, field_pair lone_cr_input = Some (r, o) /\ starts_with is_space r = true.
Proof. do 2 eexists. split; [vm_compute; reflexivity | reflexivity]. Qed.

(** C9 (amended): after [field_pair] or [field_string] succeeds, the rest is
    empty, or starts with a character other than space and tab, or is a
    line cut by a ['\r'] not followed by ['\n'] (which no line-ending parser
    accepts). *)
Theorem field_value_ends_at_non_continuation (s r : string) :
  (exists o, field_pair s = Some (r, o)) \/ (exists o, field_string s = Some (r, o)) ->
  r = EmptyString \/ starts_with (fun c => negb (is_space c)) r = true \/
  exists w b, r = w ++ String "013" b /\ no_line_break w = true /\
              starts_with (fun c => Ascii.eqb c "010") b = false.
Proof.
  intro H.
  assert (Hp : exists o, field_pair s = Some (r, o)).
  { destruct H as [H | [o H]]; [exact H|].
    unfold field_string, recognize in H.
    destruct (field_pair s) as [[r0 o0]|]; [|discriminate].
    inversion H; subst. eauto. }
  clear H. destruct Hp as [o H].
  unfold field_pair, separated_pair, map, pair in H.
  destruct (field_name s) as [[r1 ?]|]; [|discriminate].
  destruct (space0 r1) as [[r2 ?]|]; [|discriminate].
  destruct (recognize _ r2) as [[r3 ?]|] eqn:E; [|discriminate].
  inversion H; subst r3. unfold recognize in E.
  destruct (rest_of_line r2) as [[r4 ?]|]; [|discriminate].
  destruct (many0 continuation_line r4) as [[r5 ?]|] eqn:E2; [|discriminate].
  inversion E; subst r5.
  apply continuation_line_none. eapply many0_stop; eauto.
Qed.

Lemma field_value_ends_at_non_continuation_witness :
  field_pair lone_cr_input = Some (" " ++ String "013" "b", ("A", "x" ++ nl)) /\
  exists w b, " " ++ String "013" "b" = w ++ String "013" b /\ no_line_break w = true /\
              starts_with (fun c => Ascii.eqb c "010") b = false.
Proof.
  assert (H : field_pair lone_cr_input = Some (" " ++ String "013" "b", ("A", "x" ++ nl)))
    by (vm_compute; reflexivity).
  split; [exact H|].
  destruct (field_value_ends_at_non_continuation lone_cr_input (" " ++ String "013" "b"))
    as [Hr | [Hr | Hr]]; [left; eauto | discriminate | discriminate | exact Hr].
Defined.

(** ** C1 *)

Definition header_in_order : string :=
  "Format: a" ++ nl ++ "Upstream-Name: n" ++ nl ++ "Source: s" ++ nl.
Definition header_swapped : string :=
  "Format: a" ++ nl ++ "Source: s" ++ nl ++ "Upstream-Name: n" ++ nl.
Definition header_format_last : string :=
  "Source: s" ++ nl ++ "Upstream-Name: n" ++ nl ++ "Format: a" ++ nl.

(** C1 (code): the optional parsers are wrapped in [opt], which always
    succeeds, so [permutation] records [None] for an optional field as soon
    as it is tried at a place where its field is not: swapping two optional
    fields changes the value, and putting [Format] last makes the header
    fail. *)
Theorem header_paragraph_order_dependent :
  header_paragraph header_format_last = None /\
  option_map snd (header_paragraph header_in_order) <>
  option_map snd (header_paragraph header_swapped) /\
  option_map (fun '(r, h) => (r, HeaderParagraph.upstream_name h)) (header_paragraph header_swapped) =
  Some ("Upstream-Name: n" ++ nl, None).
Proof. vm_compute. split; [reflexivity | split; [discriminate | reflexivity]]. Qed.

(** ** C2 *)

Definition example_url : string :=
  "https://www.debian.org/doc/packaging-manuals/copyright-format/1.0/".
Definition example_document (last_eol : string) : string :=
  "Format: " ++ example_url ++ nl ++ nl ++ "Files: README.md" ++ nl ++
  "Copyright: 2020, Example Org." ++ nl ++ "License: MIT" ++ last_eol.

(** C2 (counterexample): the header's format of the parsed example is not
    exactly the URL. *)
Lemma example_format_counterexample :
  ~ exists r f, copyright_file (example_document nl) = Some (r, f) /\
                HeaderParagraph.format (CopyrightFile.header_paragraph f) = mkFormat example_url.
Proof.
  intros [r [f [H1 H2]]]. vm_compute in H1. inversion H1; subst. vm_compute in H2. discriminate.
Qed.

(** C2 (amended): the example parses completely into a header whose format
    is the URL followed by its line terminator and one [FilesParagraph]
    with files ["README.md"], copyright ["2020, Example Org."] and license
    ["MIT"] followed by the line terminator ending the document (["MIT"]
    when the document has no final newline). *)
Theorem example_document_parse :
  copyright_file (example_document nl) =
  Some (EmptyString,
        CopyrightFile.mk
          (HeaderParagraph.mk (mkFormat (example_url ++ nl)) None None None None None None None)
          [BodyParagraph.Files
             (FilesParagraph.mk (mkFiles ["README.md"]) (mkCopyright ["2020, Example Org."])
                                (mkLicense ("MIT" ++ nl)) None)]) /\
  copyright_file (example_document EmptyString) =
  Some (EmptyString,
        CopyrightFile.mk
          (HeaderParagraph.mk (mkFormat (example_url ++ nl)) None None None None None None None)
          [BodyParagraph.Files
             (FilesParagraph.mk (mkFiles ["README.md"]) (mkCopyright ["2020, Example Org."])
                                (mkLicense "MIT") None)]).
Proof. split; vm_compute; reflexivity. Qed.

(** ** C6 *)

Definition unknown_field_header : string := "Format: a" ++ nl ++ "Foo: b" ++ nl.
Definition unknown_field_files : string :=
  "Files: x" ++ nl ++ "Copyright: c" ++ nl ++ "License: l" ++ nl ++ "Foo: b" ++ nl.

(** C6 (counterexample): a header stanza and a files stanza with the
    unknown field [Foo] are both assembled without failure. *)
Lemma unknown_field_accepted_counterexample :
  option_map fst (header_paragraph unknown_field_header) = Some ("Foo: b" ++ nl) /\
  option_map fst (files_paragraph unknown_field_files) = Some ("Foo: b" ++ nl).
Proof. split; vm_compute; reflexivity. Qed.

(** C6 (amended): [header_paragraph] does not reject an unrecognized
    field: after a [Format] line, a field whose name starts with none of the
    eight recognized names is left unconsumed, returned as the rest of the
    input, and the stanza is assembled with the optional fields absent. *)
Theorem header_paragraph_leaves_unknown_field (v name w : string) :
  no_line_break v = true -> valid_field_name name = true ->
  forallb (fun n => negb (String.prefix n name)) header_names = true ->
  header_paragraph ("Format:" ++ v ++ nl ++ name ++ ":" ++ w) =
  Some (name ++ ":" ++ w,
        HeaderParagraph.mk (mkFormat (snd (span is_space v) ++ nl))
                           None None None None None None None).
Proof.
  intros Hv Hn Hp.
  simpl in Hp. rewrite !andb_true_iff in Hp.
  destruct Hp as [P1 [P2 [P3 [P4 [P5 [P6 [P7 [P8 _]]]]]]]].
  apply negb_true_iff, prefix_strip_prefix in P1, P2, P3, P4, P5, P6, P7, P8.
  set (rest := name ++ ":" ++ w).
  assert (Other : forall n, strip_prefix n name = None -> specific_field_name n rest = None)
    by (intros; now apply specific_field_name_other).
  assert (R1 : map HF_format Format_parse ("Format:" ++ v ++ nl ++ rest) =
               Some (rest, HF_format (mkFormat (snd (span is_space v) ++ nl)))).
  { apply map_some. unfold Format_parse, single_line_parse.
    apply map_some. change ("Format:" ++ v ++ nl ++ rest) with ("Format" ++ ":" ++ v ++ nl ++ rest).
    apply single_line_value; [reflexivity | exact Hv | left; reflexivity]. }
  assert (R2 : map HF_upstream_name (opt UpstreamName_parse) rest = Some (rest, HF_upstream_name None)).
  { apply map_opt_none. unfold UpstreamName_parse, single_line_parse, map.
    now rewrite single_line_other by auto. }
  assert (R3 : map HF_upstream_contact (opt UpstreamContact_parse) rest =
               Some (rest, HF_upstream_contact None)).
  { apply map_opt_none. unfold UpstreamContact_parse, single_line_parse, map.
    now rewrite single_line_other by auto. }
  assert (R4 : map HF_source (opt Source_parse) rest = Some (rest, HF_source None)).
  { apply map_opt_none. unfold Source_parse, single_line_parse, map.
    now rewrite single_line_other by auto. }
  assert (R5 : map HF_disclaimer (opt Disclaimer_parse) rest = Some (rest, HF_disclaimer None)).
  { apply map_opt_none. unfold Disclaimer_parse, multi_line_field, map.
    now rewrite multi_line_other by auto. }
  assert (R6 : map HF_comment (opt Comment_parse) rest = Some (rest, HF_comment None)).
  { apply map_opt_none. unfold Comment_parse, multi_line_field, map.
    now rewrite multi_line_other by auto. }
  assert (R7 : map HF_license (opt License_parse) rest = Some (rest, HF_license None)).
  { apply map_opt_none. unfold License_parse, multi_line_field, map.
    now rewrite multi_line_other by auto. }
  assert (R8 : map HF_copyright (opt Copyright_parse) rest = Some (rest, HF_copyright None)).
  { apply map_opt_none. unfold Copyright_parse, parse_field_with_trimmed_list, multi_line_field, map, many1.
    now rewrite multi_line_other by auto. }
  unfold header_paragraph, permutation.
  cbn [List.length List.map perm_loop perm_pass].
  rewrite R1. cbn [perm_loop perm_pass].
  rewrite R2. cbn [perm_loop perm_pass].
  rewrite R3. cbn [perm_loop perm_pass].
  rewrite R4. cbn [perm_loop perm_pass].
  rewrite R5. cbn [perm_loop perm_pass].
  rewrite R6. cbn [perm_loop perm_pass].
  rewrite R7. cbn [perm_loop perm_pass].
  rewrite R8. cbn [perm_loop perm_pass].
  reflexivity.
Qed.

Lemma header_paragraph_leaves_unknown_field_witness :
  header_paragraph ("Format:" ++ " a" ++ nl ++ "Foo" ++ ":" ++ " b" ++ nl) =
  Some ("Foo" ++ ":" ++ " b" ++ nl,
        HeaderParagraph.mk (mkFormat ("a" ++ nl)) None None None None None None None).
Proof. apply header_paragraph_leaves_unknown_field; reflexivity. Defined.

(** ** C7 *)

(** C7 (counterexample): [copyright_file] succeeds on a document with an
    unparsed field left over, and returns it as the rest. *)
Lemma copyright_file_leftover_counterexample :
  exists r f, copyright_file unknown_field_header = Some (r, f) /\ r <> EmptyString.
Proof. do 2 eexists. split; [vm_compute; reflexivity | discriminate]. Qed.

(** C7 (amended): [copyright_file] does not check for the end of input.
    When it succeeds, the rest it returns is the input where the body
    paragraphs stopped (no further body paragraph parses there) with its
    leading spaces and tabs removed; it does not start with a space or tab,
    and it is not required to be empty. *)
Theorem copyright_file_rest (s r : string) (f : CopyrightFile.t) :
  copyright_file s = Some (r, f) ->
  exists bl r1 h r2 bs r0,
    many0 (pair space0 line_ending) s = Some (r1, bl) /\
    header_paragraph r1 = Some (r2, h) /\
    many0 body_paragraph r2 = Some (r0, bs) /\
    f = CopyrightFile.mk h bs /\
    body_paragraph r0 = None /\ r = snd (span is_space r0) /\
    starts_with is_space r = false.
Proof.
  intro H. unfold copyright_file, delimited, tuple3, map, pair in H.
  destruct (many0 (A := string * string) _ s) as [[r1 bl]|] eqn:E0; [|discriminate].
  destruct (header_paragraph r1) as [[r2 h]|] eqn:E1; [|discriminate].
  destruct (many0 body_paragraph r2) as [[r3 bs]|] eqn:E; [|discriminate].
  destruct (space0 r3) as [[r4 ?]|] eqn:E2; [|discriminate].
  inversion H; subst r4 f.
  exists bl, r1, h, r2, bs, r3.
  do 4 (split; [first [reflexivity | assumption]|]).
  split; [eapply many0_stop; eauto|].
  unfold space0, take_while in E2.
  destruct (span is_space r3) as [a b] eqn:E3. inversion E2; subst. split; [reflexivity|].
  destruct (span_spec _ _ _ _ E3) as [_ [_ [-> | [c [b' [-> Hc]]]]]]; [reflexivity|].
  simpl. exact Hc.
Qed.

Lemma copyright_file_rest_witness :
  copyright_file unknown_field_header <> None /\
  exists bl r1 h r2 bs r0,
    many0 (pair space0 line_ending) unknown_field_header = Some (r1, bl) /\
    header_paragraph r1 = Some (r2, h) /\
    many0 body_paragraph r2 = Some (r0, bs) /\
    body_paragraph r0 = None /\ "Foo: b" ++ nl = snd (span is_space r0) /\
    starts_with is_space ("Foo: b" ++ nl) = false.
Proof.
  assert (H : exists f, copyright_file unknown_field_header = Some ("Foo: b" ++ nl, f))
    by (eexists; vm_compute; reflexivity).
  destruct H as [f H]. split; [now rewrite H|].
  destruct (copyright_file_rest _ _ _ H)
    as [bl [r1 [h [r2 [bs [r0 [H1 [H2 [H3 [_ [H5 [H6 H7]]]]]]]]]]]].
  exists bl, r1, h, r2, bs, r0. repeat split; assumption.
Defined.

End Claims.

(** * Further facts about the tokenizer *)
Module ExtraFacts.
Import Nom ControlFile CopyrightFileParser Fields Props Facts.

Ltac ascii_cases c := destruct c as [[] [] [] [] [] [] [] []].

Definition nb (c : ascii) : bool := negb (is_nl_or_cr c).

Lemma concat_cons (x : string) (xs : list string) :
  String.concat "" (x :: xs) = x ++ String.concat "" xs.
Proof. destruct xs; simpl; [now rewrite app_nil_r_s | reflexivity]. Qed.

Lemma recognized (x r : string) :
  substring 0 (String.length (x ++ r) - String.length r) (x ++ r) = x.
Proof.
  rewrite slen_app. replace (String.length x + String.length r - String.length r)
    with (String.length x) by lia. apply substring_app.
Qed.

Lemma strip_prefix_spec (t s r : string) : strip_prefix t s = Some r -> s = t ++ r.
Proof.
  revert s. induction t as [|c t IH]; intros [|d s] H; simpl in H; try discriminate.
  - injection H as <-. reflexivity.
  - injection H as <-. reflexivity.
  - destruct (Ascii.eqb c d) eqn:E; [|discriminate].
    apply Ascii.eqb_eq in E. subst d. simpl. f_equal. now apply IH.
Qed.

Lemma tag_spec (t s r a : string) : tag t s = Some (r, a) -> a = t /\ s = t ++ r.
Proof.
  unfold tag. destruct (strip_prefix t s) eqn:E; intro H; [|discriminate].
  injection H as <- <-. split; [reflexivity | now apply strip_prefix_spec].
Qed.

Lemma take_while_spec (p : ascii -> bool) (s r a : string) :
  take_while p s = Some (r, a) -> s = a ++ r /\ sforall p a = true /\ stops p r.
Proof.
  unfold take_while. destruct (span p s) as [a' b'] eqn:E. intro H. injection H as <- <-.
  exact (span_spec _ _ _ _ E).
Qed.

Lemma take_while1_spec (p : ascii -> bool) (s r a : string) :
  take_while1 p s = Some (r, a) ->
  s = a ++ r /\ sforall p a = true /\ stops p r /\ a <> EmptyString.
Proof.
  unfold take_while1. destruct (span p s) as [a' b'] eqn:E. intro H.
  destruct a' as [|c a'']; [discriminate|]. injection H as <- <-.
  destruct (span_spec _ _ _ _ E) as [H1 [H2 H3]].
  refine (conj H1 (conj H2 (conj H3 _))). discriminate.
Qed.

Lemma span_stops (p : ascii -> bool) (z : string) : stops p z -> span p z = (EmptyString, z).
Proof. intros [-> | [c [z' [-> Hc]]]]; simpl; [reflexivity | now rewrite Hc]. Qed.

Lemma stops_starts_with (p : ascii -> bool) (z : string) : stops p z -> starts_with p z = false.
Proof. intros [-> | [c [z' [-> Hc]]]]; [reflexivity | exact Hc]. Qed.

Lemma starts_with_app_l (p : ascii -> bool) (v r : string) :
  starts_with p (v ++ r) = false -> starts_with p v = false.
Proof. destruct v; simpl; auto. Qed.

Lemma sforall_impl (p q : ascii -> bool) (s : string) :
  (forall c, p c = true -> q c = true) -> sforall p s = true -> sforall q s = true.
Proof.
  intro Hpq. induction s as [|c s IH]; simpl; [reflexivity|].
  intros [Hc Hs]%andb_prop. now rewrite (Hpq c Hc), (IH Hs).
Qed.

Lemma sforall_concat (p : ascii -> bool) (xs : list string) :
  Forall (fun x => sforall p x = true) xs -> sforall p (String.concat "" xs) = true.
Proof.
  induction 1 as [|x xs Hx _ IH]; [reflexivity|].
  rewrite concat_cons, sforall_app, Hx, IH. reflexivity.
Qed.

(** ** Line endings *)

Lemma line_ending_spec (s r e : string) :
  line_ending s = Some (r, e) -> (e = nl \/ e = crlf) /\ s = e ++ r.
Proof.
  unfold line_ending. intro H.
  destruct s as [|c s]; [discriminate|].
  ascii_cases c; simpl in H; try discriminate;
    try (injection H as <- <-; split; [left; reflexivity | reflexivity]).
  destruct s as [|d s]; [discriminate|].
  ascii_cases d; simpl in H; try discriminate.
  injection H as <- <-. split; [right; reflexivity | reflexivity].
Qed.

Lemma line_ending_nonbreak (c : ascii) (x : string) :
  is_nl_or_cr c = false -> line_ending (String c x) = None.
Proof. intro H. ascii_cases c; simpl in H; try discriminate; reflexivity. Qed.

Lemma line_ending_lone (b : string) :
  starts_with (fun c => Ascii.eqb c "010") b = false -> line_ending (String "013" b) = None.
Proof.
  intro H. destruct b as [|d b]; [reflexivity|].
  simpl in H. ascii_cases d; simpl in H; try discriminate; reflexivity.
Qed.

Lemma eol_split_cases (e r : string) :
  eol_split e r -> e = EmptyString \/ e = nl \/ e = crlf.
Proof. intros [-> | [-> | [-> _]]]; auto. Qed.

Lemma eol_or_string_spec (s r e : string) :
  end_of_line_or_string s = Some (r, e) -> s = e ++ r /\ eol_split e r.
Proof.
  unfold end_of_line_or_string, alt. destruct s as [|c s].
  - simpl. intro H. injection H as <- <-.
    split; [reflexivity | right; right; split; reflexivity].
  - unfold eof. cbv beta iota. intro H.
    apply line_ending_spec in H as [[-> | ->] ->];
      split; try reflexivity; unfold eol_split; tauto.
Qed.

Lemma eol_nonbreak (c : ascii) (x : string) :
  is_nl_or_cr c = false -> end_of_line_or_string (String c x) = None.
Proof.
  intro H. unfold end_of_line_or_string, alt, eof. cbv beta iota.
  now apply line_ending_nonbreak.
Qed.

Lemma eol_lone (b : string) :
  starts_with (fun c => Ascii.eqb c "010") b = false ->
  end_of_line_or_string (String "013" b) = None.
Proof.
  intro H. unfold end_of_line_or_string, alt, eof. cbv beta iota.
  now apply line_ending_lone.
Qed.

Lemma eol_lone_at (s : string) : lone_cr_at s -> end_of_line_or_string s = None.
Proof.
  intros [w [b [-> [Hw Hb]]]]. destruct w as [|c w].
  - now apply eol_lone.
  - apply eol_nonbreak. unfold no_line_break in Hw. simpl in Hw.
    apply andb_prop in Hw as [Hc _]. now apply negb_true_iff.
Qed.

Lemma not_line_ending_ok (w eol t : string) :
  no_line_break w = true -> eol_split eol t ->
  not_line_ending (w ++ eol ++ t) = Some (eol ++ t, w).
Proof.
  intros Hw He. unfold not_line_ending. rewrite span_all by exact Hw.
  destruct He as [-> | [-> | [-> ->]]]; simpl; rewrite ?app_nil_r_s; reflexivity.
Qed.

Lemma not_line_ending_lone (w b : string) :
  no_line_break w = true -> starts_with (fun c => Ascii.eqb c "010") b = false ->
  not_line_ending (w ++ String "013" b) = None.
Proof.
  intros Hw Hb. unfold not_line_ending. rewrite span_all by exact Hw.
  destruct b as [|d b]; [reflexivity|].
  simpl in Hb. ascii_cases d; simpl in Hb; try discriminate; reflexivity.
Qed.

(** Every input is a line with its terminator (or up to the end of
    input), or a line cut by a lone ['\r']. *)
Lemma line_split (s : string) :
  (exists w eol t, s = w ++ eol ++ t /\ no_line_break w = true /\ eol_split eol t) \/
  lone_cr_at s.
Proof.
  destruct (span nb s) as [w z] eqn:E.
  destruct (span_spec _ _ _ _ E) as [Es [Hw [Hz | [c [z' [Hz Hc]]]]]]; subst s z.
  - left. exists w, EmptyString, EmptyString.
    split; [reflexivity | split; [exact Hw | right; right; split; reflexivity]].
  - unfold nb in Hc. apply negb_false_iff in Hc. unfold is_nl_or_cr in Hc.
    apply orb_prop in Hc as [Hc|Hc]; apply Ascii.eqb_eq in Hc; subst c.
    + left. exists w, nl, z'.
      split; [reflexivity | split; [exact Hw | left; reflexivity]].
    + destruct z' as [|d z''].
      * right. exists w, EmptyString. split; [reflexivity | split; [exact Hw | reflexivity]].
      * destruct (Ascii.eqb d "010") eqn:Ed.
        -- apply Ascii.eqb_eq in Ed. subst d. left. exists w, crlf, z''.
           split; [reflexivity | split; [exact Hw | right; left; reflexivity]].
        -- right. exists w, (String d z''). split; [reflexivity | split; [exact Hw | exact Ed]].
Qed.

Lemma rest_of_line_lone (s : string) : lone_cr_at s -> rest_of_line s = None.
Proof.
  intro H. pose proof H as [w [b [Es [Hw Hb]]]].
  assert (N : not_line_ending s = None) by (rewrite Es; now apply not_line_ending_lone).
  unfold rest_of_line, recognize, pair, opt. rewrite N. cbv beta iota.
  now rewrite (eol_lone_at s H).
Qed.

Lemma line_lone (s : string) : lone_cr_at s -> line s = None.
Proof.
  intros [w [b [-> [Hw Hb]]]].
  assert (E : span nb (w ++ String "013" b) = (w, String "013" b)).
  { unfold nb. rewrite span_all by exact Hw. simpl. now rewrite app_nil_r_s. }
  unfold line, recognize, pair, my_non_line_ending, take_while.
  fold nb. rewrite E. cbv beta iota. now rewrite eol_lone.
Qed.

Lemma one_line_eol (w e r : string) :
  no_line_break w = true -> eol_split e r -> one_line (w ++ e).
Proof. intros Hw He. exists w, e. split; [reflexivity | split; [exact Hw | exact (eol_split_cases _ _ He)]]. Qed.

Lemma rest_of_line_spec (s r v : string) :
  rest_of_line s = Some (r, v) -> s = v ++ r /\ one_line v.
Proof.
  destruct (line_split s) as [[w [eol [t [-> [Hw He]]]]] | H].
  - rewrite rest_of_line_app by assumption. intro E. injection E as <- <-.
    split; [now rewrite app_assoc_s | eapply one_line_eol; eassumption].
  - now rewrite rest_of_line_lone.
Qed.

Lemma line_spec (s r v : string) :
  line s = Some (r, v) -> s = v ++ r /\ one_line v.
Proof.
  destruct (line_split s) as [[w [eol [t [-> [Hw He]]]]] | H].
  - rewrite line_app by assumption. intro E. injection E as <- <-.
    split; [now rewrite app_assoc_s | eapply one_line_eol; eassumption].
  - now rewrite line_lone.
Qed.

Lemma continuation_line_spec (s r l : string) :
  continuation_line s = Some (r, l) ->
  s = l ++ r /\ one_line l /\ starts_with is_space l = true.
Proof.
  unfold continuation_line, recognize, tuple3.
  destruct (space1 s) as [[r1 a1]|] eqn:E1; [|discriminate].
  destruct (my_non_line_ending r1) as [[r2 a2]|] eqn:E2; [|discriminate].
  destruct (end_of_line_or_string r2) as [[r3 e]|] eqn:E3; [|discriminate].
  intro H. injection H as <- <-.
  destruct (take_while1_spec _ _ _ _ E1) as [-> [Ha1 [_ Hne]]].
  destruct (take_while_spec _ _ _ _ E2) as [-> [Ha2 _]].
  destruct (eol_or_string_spec _ _ _ E3) as [-> He].
  rewrite <- !app_assoc_s, recognized.
  split; [reflexivity|]. split.
  - apply (one_line_eol _ _ r3); [|exact He].
    unfold no_line_break. rewrite sforall_app. apply space_no_break in Ha1.
    unfold no_line_break in Ha1. rewrite Ha1. exact Ha2.
  - destruct a1 as [|c a1]; [congruence|]. simpl in Ha1 |- *.
    now apply andb_prop in Ha1 as [-> _].
Qed.

(** ** [many0] runs *)

Lemma many0_recognized (p : Parser string) (P : string -> Prop) :
  (forall s r a, p s = Some (r, a) -> s = a ++ r /\ P a) ->
  forall s r xs, many0 p s = Some (r, xs) -> s = String.concat "" xs ++ r /\ Forall P xs.
Proof.
  intros Hp.
  assert (G : forall n s r xs, many0_fuel n p s = Some (r, xs) ->
                               s = String.concat "" xs ++ r /\ Forall P xs).
  { induction n as [|n IH]; intros s r xs H; simpl in H; [discriminate|].
    destruct (p s) as [[r1 a]|] eqn:E.
    - destruct (Nat.ltb _ _); [|discriminate].
      destruct (many0_fuel n p r1) as [[r2 ys]|] eqn:E2; [|discriminate].
      injection H as <- <-. destruct (Hp _ _ _ E) as [-> Ha].
      destruct (IH _ _ _ E2) as [-> Hys].
      split; [now rewrite concat_cons, app_assoc_s | now constructor].
    - injection H as <- <-. split; [reflexivity | constructor]. }
  intros s r xs. apply G.
Qed.

Lemma many0_Forall {A} (p : Parser A) (P : A -> Prop) :
  (forall s r a, p s = Some (r, a) -> P a) ->
  forall s r xs, many0 p s = Some (r, xs) -> Forall P xs.
Proof.
  intros Hp.
  assert (G : forall n s r xs, many0_fuel n p s = Some (r, xs) -> Forall P xs).
  { induction n as [|n IH]; intros s r xs H; simpl in H; [discriminate|].
    destruct (p s) as [[r1 a]|] eqn:E.
    - destruct (Nat.ltb _ _); [|discriminate].
      destruct (many0_fuel n p r1) as [[r2 ys]|] eqn:E2; [|discriminate].
      injection H as <- <-. constructor; [eapply Hp; eauto | eapply IH; eauto].
    - injection H as <- <-. constructor. }
  intros s r xs. apply G.
Qed.

Lemma many0_total {A} (p : Parser A) :
  (forall s r a, p s = Some (r, a) -> String.length r < String.length s) ->
  forall s, exists r xs, many0 p s = Some (r, xs).
Proof.
  intros Hp.
  assert (G : forall n s, String.length s < n -> exists r xs, many0 p s = Some (r, xs)).
  { induction n as [|n IH]; intros s Hs; [lia|]. rewrite many0_unfold.
    destruct (p s) as [[r a]|] eqn:E; [|eauto].
    pose proof (Hp _ _ _ E) as Hl.
    replace (Nat.ltb _ _) with true by (symmetry; now apply Nat.ltb_lt).
    destruct (IH r) as [r' [xs H]]; [lia|]. rewrite H. eauto. }
  intro s. apply (G (S (String.length s))). lia.
Qed.

Lemma many0_lines (p : Parser string) (P Q : string -> Prop) :
  (forall s, (p s = None /\ Q s) \/
             (exists l t, p s = Some (t, l) /\ s = l ++ t /\ l <> EmptyString /\ P l)) ->
  forall s, exists r ls, many0 p s = Some (r, ls) /\ s = String.concat "" ls ++ r /\
                         Forall P ls /\ Q r.
Proof.
  intros Hp.
  assert (G : forall n s, String.length s < n ->
              exists r ls, many0 p s = Some (r, ls) /\ s = String.concat "" ls ++ r /\
                           Forall P ls /\ Q r).
  { induction n as [|n IH]; intros s Hs; [lia|]. rewrite many0_unfold.
    destruct (Hp s) as [[E Hq] | [l [t [E [Es [Hl HP]]]]]].
    - rewrite E. exists s, []. split; [reflexivity|].
      split; [reflexivity | split; [constructor | exact Hq]].
    - rewrite E. subst s.
      assert (Hlt : String.length t < String.length (l ++ t)).
      { rewrite slen_app. destruct l; [congruence|]. simpl. lia. }
      replace (Nat.ltb _ _) with true by (symmetry; now apply Nat.ltb_lt).
      destruct (IH t) as [r [ls [H1 [H2 [H3 H4]]]]]; [lia|].
      rewrite H1. exists r, (l :: ls). split; [reflexivity|].
      split; [rewrite concat_cons, app_assoc_s, <- H2; reflexivity|].
      split; [constructor; assumption | exact H4]. }
  intro s. apply (G (S (String.length s))). lia.
Qed.

Lemma continuation_line_progress (s r l : string) :
  continuation_line s = Some (r, l) -> String.length r < String.length s.
Proof.
  intro H. destruct (continuation_line_spec _ _ _ H) as [-> [_ Hl]].
  rewrite slen_app. destruct l; [discriminate|]. simpl. lia.
Qed.

(** The value parser shared by [field_pair] and [named_multi_line_field]. *)
Lemma value_recognize (s : string) :
  recognize (pair rest_of_line (many0 continuation_line)) s =
  match rest_of_line s with
  | Some (r1, first) =>
      match many0 continuation_line r1 with
      | Some (r, ls) => Some (r, first ++ String.concat "" ls)
      | None => None
      end
  | None => None
  end.
Proof.
  destruct (rest_of_line s) as [[r1 first]|] eqn:E1.
  - destruct (many0 continuation_line r1) as [[r ls]|] eqn:E2.
    + destruct (rest_of_line_spec _ _ _ E1) as [-> _].
      destruct (many0_recognized _ (fun _ => True)
                  (fun s r a H => conj (proj1 (continuation_line_spec s r a H)) I) _ _ _ E2)
        as [-> _].
      rewrite <- app_assoc_s. apply (recognize_app _ _ _ (first, ls)).
      unfold pair. rewrite app_assoc_s, E1, E2. reflexivity.
    + unfold recognize, pair. now rewrite E1, E2.
  - unfold recognize, pair. now rewrite E1.
Qed.

Lemma preceded_eq {A B} (p : Parser A) (q : Parser B) (s : string) :
  preceded p q s =
  match p s with
  | Some (r, _) => match q r with Some (r', b) => Some (r', b) | None => None end
  | None => None
  end.
Proof.
  unfold preceded, map, pair.
  destruct (p s) as [[r a]|]; [destruct (q r) as [[r' b]|]|]; reflexivity.
Qed.

Lemma prefix_strip_prefix_true (n name : string) :
  String.prefix n name = true -> exists x, strip_prefix n name = Some x.
Proof.
  revert name. induction n as [|c n IH]; intros [|d name]; simpl; try discriminate; eauto.
  destruct (ascii_dec c d) as [<-|Hne]; [|discriminate].
  rewrite Ascii.eqb_refl. apply IH.
Qed.

(** ** Paragraph lines *)

Lemma T1_ok (w z : string) :
  no_line_break w = true -> w <> EmptyString -> stops nb z ->
  take_while1 nb (w ++ z) = Some (z, w).
Proof.
  intros Hw Hne Hz. unfold take_while1. rewrite span_all by exact Hw.
  rewrite (span_stops _ _ Hz). simpl. rewrite app_nil_r_s.
  destruct w; [congruence | reflexivity].
Qed.

Lemma T1_none (c : ascii) (x : string) :
  is_nl_or_cr c = true -> take_while1 nb (String c x) = None.
Proof. intro Hc. unfold take_while1, nb. cbn [span]. rewrite Hc. reflexivity. Qed.

Lemma eol_stops_nb (eol t : string) : eol_split eol t -> stops nb (eol ++ t).
Proof. intro He. apply eol_stops; [exact He|]. intros c Hc. unfold nb. now rewrite Hc. Qed.

Lemma lone_stops_nb (b : string) : stops nb (String "013" b).
Proof. right. exists "013"%char, b. split; reflexivity. Qed.

Lemma recognize_pair_app {A B} (p : Parser A) (q : Parser B) (x y t : string) (a : A) (b : B) :
  p (x ++ y ++ t) = Some (y ++ t, a) -> q (y ++ t) = Some (t, b) ->
  recognize (pair p q) (x ++ y ++ t) = Some (t, x ++ y).
Proof.
  intros H1 H2. rewrite <- app_assoc_s. apply (recognize_app _ _ _ (a, b)).
  unfold pair. rewrite app_assoc_s, H1, H2. reflexivity.
Qed.

(** One item of [control_file::paragraph] (src/control_file.rs). *)
Definition cf_item : Parser string :=
  alt (recognize (pair (take_while1 nb) line_ending))
      (recognize (pair (take_while1 nb) eof)).

Lemma cf_paragraph_eq : ControlFile.paragraph = many0 cf_item.
Proof. reflexivity. Qed.

Lemma cf_item_step (s : string) :
  (cf_item s = None /\
   (s = EmptyString \/ (exists t, s = nl ++ t \/ s = crlf ++ t) \/ lone_cr_at s)) \/
  (exists l t, cf_item s = Some (t, l) /\ s = l ++ t /\ l <> EmptyString /\
     exists w eol, l = w ++ eol /\ w <> EmptyString /\ no_line_break w = true /\
                   (eol = EmptyString \/ eol = nl \/ eol = crlf)).
Proof.
  destruct (line_split s) as [[w [eol [t [-> [Hw He]]]]] | H].
  - destruct w as [|c w'].
    + left. destruct He as [-> | [-> | [-> ->]]].
      * split; [reflexivity | right; left; exists t; now left].
      * split; [reflexivity | right; left; exists t; now right].
      * split; [reflexivity | now left].
    + right. set (w := String c w') in *.
      assert (Hne : w <> EmptyString) by discriminate.
      assert (T : take_while1 nb (w ++ eol ++ t) = Some (eol ++ t, w))
        by (apply T1_ok; [exact Hw | exact Hne | exact (eol_stops_nb _ _ He)]).
      exists (w ++ eol), t. split.
      * unfold cf_item, alt. destruct He as [-> | [-> | [-> ->]]].
        -- rewrite (recognize_pair_app (take_while1 nb) line_ending w nl t w nl T eq_refl).
           reflexivity.
        -- rewrite (recognize_pair_app (take_while1 nb) line_ending w crlf t w crlf T eq_refl).
           reflexivity.
        -- unfold recognize at 1, pair at 1. rewrite T.
           change (line_ending (EmptyString ++ EmptyString)) with (@None (string * string)).
           cbv beta iota.
           rewrite (recognize_pair_app (take_while1 nb) eof w EmptyString EmptyString w
                      EmptyString T eq_refl).
           reflexivity.
      * split; [now rewrite app_assoc_s|]. split; [unfold w; cbn [append]; discriminate|].
        exists w, eol. split; [reflexivity|]. split; [exact Hne|]. split; [exact Hw|].
        exact (eol_split_cases _ _ He).
  - left. split; [|right; right; exact H].
    destruct H as [w [b [-> [Hw Hb]]]]. destruct w as [|c w'].
    + unfold cf_item, alt, recognize, pair. cbn [append]. rewrite T1_none by reflexivity.
      reflexivity.
    + set (w := String c w') in *.
      assert (T : take_while1 nb (w ++ String "013" b) = Some (String "013" b, w))
        by (apply T1_ok; [exact Hw | discriminate | exact (lone_stops_nb b)]).
      unfold cf_item, alt, recognize, pair. rewrite T.
      rewrite line_ending_lone by exact Hb. reflexivity.
Qed.

(** One item of [paragraph] in src/parser.rs. *)
Definition pr_item : Parser string :=
  recognize (alt (pair not_line_ending line_ending) (pair (take_while1 nb) eof)).

Lemma pr_paragraph_eq : ParserRs.control_file.paragraph = many0 pr_item.
Proof. reflexivity. Qed.

Lemma pr_item_step (s : string) :
  (pr_item s = None /\ (s = EmptyString \/ lone_cr_at s)) \/
  (exists l t, pr_item s = Some (t, l) /\ s = l ++ t /\ l <> EmptyString /\ one_line l).
Proof.
  destruct (line_split s) as [[w [eol [t [-> [Hw He]]]]] | H].
  - destruct He as [-> | [-> | [-> ->]]].
    + right. exists (w ++ nl), t. split.
      * rewrite <- app_assoc_s. apply (recognize_app _ _ _ (w, nl)).
        unfold alt, pair. rewrite app_assoc_s, not_line_ending_ok by (assumption || (left; reflexivity)).
        reflexivity.
      * split; [now rewrite app_assoc_s|]. split; [destruct w; discriminate|].
        apply (one_line_eol _ _ t); [exact Hw | left; reflexivity].
    + right. exists (w ++ crlf), t. split.
      * rewrite <- app_assoc_s. apply (recognize_app _ _ _ (w, crlf)).
        unfold alt, pair. rewrite app_assoc_s, not_line_ending_ok by (assumption || (right; left; reflexivity)).
        reflexivity.
      * split; [now rewrite app_assoc_s|]. split; [destruct w; discriminate|].
        apply (one_line_eol _ _ t); [exact Hw | right; left; reflexivity].
    + cbn [append]. rewrite app_nil_r_s.
      assert (N : not_line_ending w = Some (EmptyString, w)).
      { rewrite <- (app_nil_r_s w) at 1. change (w ++ EmptyString) with (w ++ EmptyString ++ EmptyString).
        apply not_line_ending_ok; [exact Hw | right; right; split; reflexivity]. }
      destruct w as [|c w'].
      * left. split; [reflexivity | now left].
      * right. set (w := String c w') in *. exists w, EmptyString.
        assert (T : take_while1 nb w = Some (EmptyString, w)).
        { rewrite <- (app_nil_r_s w) at 1. apply T1_ok; [exact Hw | discriminate | now left]. }
        split.
        -- rewrite <- (app_nil_r_s w) at 1. apply (recognize_app _ _ _ (w, EmptyString)).
           unfold alt, pair. rewrite app_nil_r_s, N, T. reflexivity.
        -- split; [now rewrite app_nil_r_s|]. split; [discriminate|].
           rewrite <- (app_nil_r_s w) at 1.
           apply (one_line_eol _ _ EmptyString); [exact Hw | right; right; split; reflexivity].
  - left. split; [|right; exact H].
    destruct H as [w [b [-> [Hw Hb]]]].
    unfold pr_item, recognize, alt, pair. rewrite not_line_ending_lone by assumption.
    destruct w as [|c w'].
    + cbn [append]. rewrite T1_none by reflexivity. reflexivity.
    + set (w := String c w') in *.
      assert (T : take_while1 nb (w ++ String "013" b) = Some (String "013" b, w))
        by (apply T1_ok; [exact Hw | discriminate | exact (lone_stops_nb b)]).
      rewrite T. reflexivity.
Qed.

(** ** Field names *)

Lemma name_piece_spec (s r a : string) :
  alt alphanumeric1 (tag "-") s = Some (r, a) -> s = a ++ r /\ sforall hy_alnum a = true.
Proof.
  unfold alt. destruct (alphanumeric1 s) as [[r0 a0]|] eqn:E.
  - intro H. injection H as <- <-.
    destruct (take_while1_spec _ _ _ _ E) as [-> [Ha _]]. split; [reflexivity|].
    apply (sforall_impl is_alphanum); [|exact Ha]. intros c Hc. unfold hy_alnum. now rewrite Hc.
  - intro H. apply tag_spec in H as [-> ->]. split; reflexivity.
Qed.

Lemma field_name_spec (s r n : string) :
  field_name s = Some (r, n) -> valid_field_name n = true /\ s = n ++ ":" ++ r.
Proof.
  unfold field_name, terminated, map, pair at 1.
  destruct (recognize _ s) as [[r1 x]|] eqn:E1; [|discriminate].
  destruct (char ":" r1) as [[r2 c]|] eqn:E2; [|discriminate].
  intro H. injection H as -> ->.
  assert (Hr1 : r1 = ":" ++ r).
  { destruct r1 as [|d r1]; [discriminate|]. unfold char in E2.
    destruct (Ascii.eqb ":" d) eqn:Ed; [|discriminate].
    apply Ascii.eqb_eq in Ed. subst d. injection E2 as -> _. reflexivity. }
  subst r1. unfold recognize, pair in E1.
  destruct (alphanumeric1 s) as [[r3 a]|] eqn:E3; [|discriminate].
  destruct (many0 (alt alphanumeric1 (tag "-")) r3) as [[r4 xs]|] eqn:E4; [|discriminate].
  injection E1 as E5 E6. subst r4 n.
  destruct (take_while1_spec _ _ _ _ E3) as [-> [Ha [_ Hne]]].
  destruct (many0_recognized _ (fun x => sforall hy_alnum x = true) name_piece_spec _ _ _ E4)
    as [-> Hxs].
  rewrite <- app_assoc_s, recognized. split; [|reflexivity].
  destruct a as [|c0 a]; [congruence|]. simpl in Ha. apply andb_prop in Ha as [Hc Ha].
  simpl. rewrite Hc. simpl. change (sforall hy_alnum (a ++ String.concat "" xs) = true).
  rewrite sforall_app, (sforall_concat _ _ Hxs), andb_true_r.
  apply (sforall_impl is_alphanum); [|exact Ha]. intros d Hd. unfold hy_alnum. now rewrite Hd.
Qed.

(** ** Blank lines *)

Lemma blank_pair (w eol t : string) :
  sforall is_space w = true -> (eol = nl \/ eol = crlf) ->
  pair space0 line_ending (w ++ eol ++ t) = Some (t, (w, eol)).
Proof.
  intros Hw He. unfold pair, space0, take_while. rewrite span_all by exact Hw.
  destruct He as [-> | ->]; simpl; rewrite app_nil_r_s; reflexivity.
Qed.

Lemma blank_line_spec (l : string) :
  blank_line l = true ->
  exists w eol, l = w ++ eol /\ sforall is_space w = true /\ (eol = nl \/ eol = crlf).
Proof.
  unfold blank_line. destruct (span is_space l) as [a b] eqn:E. simpl.
  destruct (span_spec _ _ _ _ E) as [-> [Ha _]]. intro H.
  exists a, b. split; [reflexivity|]. split; [exact Ha|].
  apply orb_prop in H as [H|H]; apply String.eqb_eq in H; auto.
Qed.

Lemma no_blank_pair (s : string) :
  starts_blank_line s = false -> pair space0 line_ending s = None.
Proof.
  intro Hs. unfold pair.
  destruct (space0 s) as [[r a]|] eqn:E; [|reflexivity].
  destruct (line_ending r) as [[t e]|] eqn:E2; [|reflexivity].
  exfalso. unfold space0, take_while in E.
  destruct (span is_space s) as [a' b'] eqn:E3. injection E as <- <-.
  unfold starts_blank_line in Hs. rewrite E3 in Hs. simpl in Hs.
  apply line_ending_spec in E2 as [[-> | ->] ->]; discriminate.
Qed.

Lemma blank_lines_skipped (bl : list string) (s : string) :
  forallb blank_line bl = true -> starts_blank_line s = false ->
  exists xs, many0 (pair space0 line_ending) (String.concat "" bl ++ s) = Some (s, xs).
Proof.
  intros Hbl Hs. induction bl as [|l bl IH].
  - exists []. simpl. rewrite many0_unfold. now rewrite (no_blank_pair s Hs).
  - simpl in Hbl. apply andb_prop in Hbl as [Hl Hbl].
    destruct (IH Hbl) as [xs H].
    destruct (blank_line_spec l Hl) as [w [eol [-> [Hw He]]]].
    exists ((w, eol) :: xs). rewrite many0_unfold, concat_cons, !app_assoc_s.
    rewrite (blank_pair w eol _ Hw He).
    replace (Nat.ltb _ _) with true.
    + rewrite H. reflexivity.
    + symmetry. apply Nat.ltb_lt. rewrite !slen_app. destruct He as [-> | ->]; simpl; lia.
Qed.

Lemma delimited_same {A B C} (p : Parser A) (q : Parser B) (u : Parser C)
      (s1 s2 r : string) (a1 a2 : A) :
  p s1 = Some (r, a1) -> p s2 = Some (r, a2) -> delimited p q u s1 = delimited p q u s2.
Proof.
  intros H1 H2. unfold delimited, map, tuple3. rewrite H1, H2.
  destruct (q r) as [[r' b]|]; [destruct (u r') as [[r'' c]|]|]; reflexivity.
Qed.

(** ** [str::trim] *)

Lemma trim_end_cons (c : ascii) (s : string) :
  trim_end (String c s) =
  match trim_end s with
  | EmptyString => if is_whitespace c then EmptyString else String c EmptyString
  | _ => String c (trim_end s)
  end.
Proof. reflexivity. Qed.

Lemma trim_end_idem (s : string) : trim_end (trim_end s) = trim_end s.
Proof.
  induction s as [|c s IH]; [reflexivity|]. rewrite trim_end_cons.
  destruct (trim_end s) as [|d t] eqn:E.
  - destruct (is_whitespace c) eqn:Hc; [reflexivity|].
    rewrite trim_end_cons. simpl. rewrite Hc. reflexivity.
  - rewrite trim_end_cons, IH. reflexivity.
Qed.

Lemma trim_start_stops (s : string) : starts_with is_whitespace (trim_start s) = false.
Proof.
  unfold trim_start. destruct (span is_whitespace s) as [a b] eqn:E.
  destruct (span_spec _ _ _ _ E) as [_ [_ Hb]]. exact (stops_starts_with _ _ Hb).
Qed.

Lemma trim_start_trim_end (s : string) :
  starts_with is_whitespace s = false -> trim_start (trim_end s) = trim_end s.
Proof.
  destruct s as [|c s]; [reflexivity|]. intro Hc. cbn [starts_with] in Hc.
  rewrite trim_end_cons. unfold trim_start.
  destruct (trim_end s) as [|d t].
  - rewrite Hc. cbn [span]. rewrite Hc. reflexivity.
  - cbn [span]. rewrite Hc. reflexivity.
Qed.

Lemma trim_idem (s : string) : trim (trim s) = trim s.
Proof.
  unfold trim. rewrite (trim_start_trim_end (trim_start s)) by apply trim_start_stops.
  apply trim_end_idem.
Qed.

End ExtraFacts.

(** * Further properties of the code *)
Module Extras.
Import Nom ControlFile CopyrightFileParser Fields Props Facts ExtraFacts.

(** ** [field_name] *)

(** [field_name] accepts exactly a valid field name followed by a colon:
    it returns the name and leaves what follows the colon. *)
Theorem field_name_roundtrip (s r n : string) :
  field_name s = Some (r, n) <-> valid_field_name n = true /\ s = n ++ ":" ++ r.
Proof.
  split; [apply field_name_spec|].
  intros [Hv ->]. now apply field_name_valid.
Qed.

(** ** [line] and [rest_of_line] *)

(** [line] and [rest_of_line] are the same parser: on every input they
    give the same result. *)
Theorem line_eq_rest_of_line (s : string) : line s = rest_of_line s.
Proof.
  destruct (line_split s) as [[w [eol [t [-> [Hw He]]]]] | H].
  - now rewrite line_app, rest_of_line_app.
  - now rewrite line_lone, rest_of_line_lone.
Qed.

(** [rest_of_line] returns the first line of its input with its line
    ending (["\n"], ["\r\n"], or nothing at the end of input) and leaves
    the following lines; it fails exactly when that first line ends in a
    ['\r'] not followed by ['\n']. *)
Theorem rest_of_line_cases (s : string) :
  (exists w eol t, s = w ++ eol ++ t /\ no_line_break w = true /\ eol_split eol t /\
                   rest_of_line s = Some (t, w ++ eol)) \/
  (lone_cr_at s /\ rest_of_line s = None).
Proof.
  destruct (line_split s) as [[w [eol [t [-> [Hw He]]]]] | H].
  - left. exists w, eol, t. split; [reflexivity|]. split; [exact Hw|]. split; [exact He|].
    now apply rest_of_line_app.
  - right. split; [exact H | now apply rest_of_line_lone].
Qed.

(** ** [field_pair], [field_string] and [field] *)

(** When [field_pair] succeeds with name [n] and value [v], the input is
    [n], a colon, the blanks after it, [v], then the rest.  [n] is a valid
    field name; [v] does not start with a blank and is its first line
    followed by continuation lines, each a single line starting with a space
    or tab.  [field_string] returns exactly the consumed text, and [field]
    of src/parser.rs the same name and value. *)
Theorem field_pair_decomposition (s r n v : string) :
  field_pair s = Some (r, (n, v)) ->
  valid_field_name n = true /\
  (exists b first ls,
     s = n ++ ":" ++ b ++ v ++ r /\ sforall is_space b = true /\
     starts_with is_space v = false /\
     v = first ++ String.concat "" ls /\ one_line first /\
     Forall (fun l => one_line l /\ starts_with is_space l = true) ls) /\
  field_string s = Some (r, substring 0 (String.length s - String.length r) s) /\
  ParserRs.control_file.field s = Some (r, ParserRs.control_file.mkField n v).
Proof.
  intro H.
  assert (Hf : ParserRs.control_file.field s = Some (r, ParserRs.control_file.mkField n v)).
  { unfold ParserRs.control_file.field. unfold map at 1. unfold field_pair in H.
    rewrite H. reflexivity. }
  assert (Hs : field_string s = Some (r, substring 0 (String.length s - String.length r) s)).
  { unfold field_string, recognize. rewrite H. reflexivity. }
  unfold field_pair in H.
  set (vp := recognize (pair rest_of_line (many0 continuation_line))) in H.
  unfold separated_pair, map, pair in H.
  destruct (field_name s) as [[r1 n1]|] eqn:E1; [|discriminate].
  destruct (space0 r1) as [[r2 b]|] eqn:E2; [|discriminate].
  destruct (vp r2) as [[r3 v1]|] eqn:E3; [|discriminate].
  unfold vp in E3. clear vp.
  injection H as <- <- <-.
  destruct (field_name_spec _ _ _ E1) as [Hv ->].
  destruct (take_while_spec _ _ _ _ E2) as [-> [Hb Hstop]].
  rewrite value_recognize in E3.
  destruct (rest_of_line r2) as [[r4 first]|] eqn:E4; [|discriminate].
  destruct (many0 continuation_line r4) as [[r5 ls]|] eqn:E5; [|discriminate].
  injection E3 as <- <-.
  destruct (rest_of_line_spec _ _ _ E4) as [-> Hfirst].
  destruct (many0_recognized _ (fun l => one_line l /\ starts_with is_space l = true)
              (fun s r a H => let '(conj H1 (conj H2 H3)) := continuation_line_spec s r a H in
                              conj H1 (conj H2 H3)) _ _ _ E5) as [-> Hls].
  split; [exact Hv|]. split; [|split; [exact Hs | exact Hf]].
  exists b, first, ls. split; [now rewrite !app_assoc_s|].
  split; [exact Hb|]. split.
  - apply (starts_with_app_l _ _ r5). rewrite app_assoc_s. exact (stops_starts_with _ _ Hstop).
  - split; [reflexivity | split; [exact Hfirst | exact Hls]].
Qed.

Lemma field_pair_decomposition_witness :
  field_pair ("asdf: jkl" ++ nl ++ "  more" ++ nl ++ "x: y")
    = Some ("x: y", ("asdf", "jkl" ++ nl ++ "  more" ++ nl)) /\
  valid_field_name "asdf" = true.
Proof.
  assert (H : field_pair ("asdf: jkl" ++ nl ++ "  more" ++ nl ++ "x: y")
              = Some ("x: y", ("asdf", "jkl" ++ nl ++ "  more" ++ nl)))
    by (vm_compute; reflexivity).
  split; [exact H|].
  exact (proj1 (field_pair_decomposition _ _ _ _ H)).
Defined.

(** ** The named field parsers *)

(** [named_multi_line_field name] is [field_pair] restricted to the fields
    whose name starts with [name] (the name is matched as a prefix, so
    ["Sources"] passes for ["Source"]); its output is the field's value. *)
Theorem named_multi_line_field_as_field_pair (name s : string) :
  named_multi_line_field name s =
  match field_pair s with
  | Some (r, (n, v)) => if String.prefix name n then Some (r, v) else None
  | None => None
  end.
Proof.
  unfold named_multi_line_field, field_pair.
  set (vp := recognize (pair rest_of_line (many0 continuation_line))).
  rewrite preceded_eq.
  unfold separated_pair, specific_field_name, value, map, map_parser, pair, tag.
  destruct (field_name s) as [[r1 n]|]; [|reflexivity].
  destruct (String.prefix name n) eqn:P.
  - destruct (prefix_strip_prefix_true _ _ P) as [x Ex]. rewrite Ex.
    destruct (space0 r1) as [[r2 b]|]; [|reflexivity].
    destruct (vp r2) as [[r3 v]|]; rewrite ?P; reflexivity.
  - rewrite (prefix_strip_prefix _ _ P).
    destruct (space0 r1) as [[r2 b]|]; [|reflexivity].
    destruct (vp r2) as [[r3 v]|]; rewrite ?P; reflexivity.
Qed.

(** [named_multi_line_field name] is [named_single_line_field name]
    followed by all the continuation lines after it: they fail together,
    and otherwise the multi-line value is the single-line value followed by
    those lines, each a single line starting with a space or tab, after
    which no continuation line follows. *)
Theorem named_multi_line_field_extends_single (name s : string) :
  match named_single_line_field name s with
  | Some (r1, first) =>
      exists r ls, named_multi_line_field name s = Some (r, first ++ String.concat "" ls) /\
        r1 = String.concat "" ls ++ r /\
        Forall (fun l => one_line l /\ starts_with is_space l = true) ls /\
        continuation_line r = None
  | None => named_multi_line_field name s = None
  end.
Proof.
  unfold named_single_line_field, named_multi_line_field. rewrite !preceded_eq.
  destruct (pair (specific_field_name name) space0 s) as [[r0 u]|]; [|reflexivity].
  rewrite value_recognize.
  destruct (rest_of_line r0) as [[r1 first]|] eqn:E; [|reflexivity].
  destruct (many0_total continuation_line continuation_line_progress r1) as [r [ls H]].
  rewrite H. exists r, ls. split; [reflexivity|].
  destruct (many0_recognized _ (fun l => one_line l /\ starts_with is_space l = true)
              (fun s r a H => let '(conj H1 (conj H2 H3)) := continuation_line_spec s r a H in
                              conj H1 (conj H2 H3)) _ _ _ H) as [-> Hls].
  split; [reflexivity|]. split; [exact Hls|]. exact (many0_stop _ _ _ _ H).
Qed.

(** ** The two [paragraph] functions *)

(** [paragraph] (src/control_file.rs) never fails.  It returns the lines
    it consumed, in order and with their terminators, each with at least one
    character before its terminator; it stops at the end of input, at an
    empty line, or at a line ending in a lone ['\r']. *)
Theorem control_file_paragraph_lines (s : string) :
  exists r ls, ControlFile.paragraph s = Some (r, ls) /\ s = String.concat "" ls ++ r /\
    Forall (fun l => exists w eol, l = w ++ eol /\ w <> EmptyString /\
                       no_line_break w = true /\
                       (eol = EmptyString \/ eol = nl \/ eol = crlf)) ls /\
    (r = EmptyString \/ (exists t, r = nl ++ t \/ r = crlf ++ t) \/ lone_cr_at r).
Proof.
  rewrite cf_paragraph_eq.
  destruct (many0_lines cf_item
              (fun l => exists w eol, l = w ++ eol /\ w <> EmptyString /\
                          no_line_break w = true /\
                          (eol = EmptyString \/ eol = nl \/ eol = crlf))
              (fun r => r = EmptyString \/ (exists t, r = nl ++ t \/ r = crlf ++ t) \/
                        lone_cr_at r))
    with (s := s) as [r [ls H]].
  - intro x. destruct (cf_item_step x) as [H | [l [t [H1 [H2 [H3 H4]]]]]]; [now left|].
    right. exists l, t. auto.
  - exists r, ls. exact H.
Qed.

(** [paragraph] of src/parser.rs never fails either, but it does not stop
    at empty lines: it consumes the whole input, one line (with its
    terminator) per element, and stops only at a line ending in a lone
    ['\r']. *)
Theorem parser_paragraph_lines (s : string) :
  exists r ls, ParserRs.control_file.paragraph s = Some (r, ls) /\
    s = String.concat "" ls ++ r /\
    Forall (fun l => l <> EmptyString /\ one_line l) ls /\
    (r = EmptyString \/ lone_cr_at r).
Proof.
  rewrite pr_paragraph_eq.
  destruct (many0_lines pr_item (fun l => l <> EmptyString /\ one_line l)
              (fun r => r = EmptyString \/ lone_cr_at r)) with (s := s) as [r [ls H]].
  - intro x. destruct (pr_item_step x) as [H | [l [t [H1 [H2 [H3 H4]]]]]]; [now left|].
    right. exists l, t. auto.
  - exists r, ls. exact H.
Qed.

(** ** [clean_multiline] *)

(** When [clean_multiline] succeeds, its output is the first line of
    the input (as [line] reads it) followed by at least one cleaned
    continuation line, and every element is a single line with at most a
    final terminator. *)
Theorem clean_multiline_output (s r : string) (ls : list string) :
  clean_multiline s = Some (r, ls) ->
  (exists first rest r1, ls = first :: rest /\ rest <> [] /\ line s = Some (r1, first)) /\
  Forall one_line ls.
Proof.
  unfold clean_multiline, map, pair, flat_map, peek.
  destruct (line s) as [[r1 first]|] eqn:E1; [|discriminate].
  destruct (space1 r1) as [[r2 ind]|]; [|discriminate].
  destruct (clean_continuation_lines ind r1) as [[r3 v]|] eqn:E3; [|discriminate].
  intro H. injection H as <- <-.
  unfold clean_continuation_lines, many1 in E3.
  destruct (clean_continuation_line ind r1) as [[r4 x]|] eqn:E4; [|discriminate].
  destruct (many0 (clean_continuation_line ind) r4) as [[r5 xs]|] eqn:E5; [|discriminate].
  injection E3 as <- <-.
  assert (Hc : forall s r a, clean_continuation_line ind s = Some (r, a) -> one_line a).
  { intros s0 r0 a Ha. rewrite clean_continuation_line_alt in Ha. unfold alt in Ha.
    destruct (blank_line_escape s0) as [[r6 a6]|] eqn:Eb.
    - injection Ha as -> ->. unfold blank_line_escape in Eb. rewrite preceded_eq in Eb.
      destruct (pair space1 (tag ".") s0) as [[r7 ?]|]; [|discriminate].
      destruct (end_of_line_or_string r7) as [[r8 e]|] eqn:Ee; [|discriminate].
      injection Eb as -> ->. destruct (eol_or_string_spec _ _ _ Ee) as [_ He].
      exact (one_line_eol EmptyString a r0 eq_refl He).
    - unfold strip_indent in Ha. rewrite preceded_eq in Ha.
      destruct (alt _ _ s0) as [[r7 ?]|]; [|discriminate].
      destruct (rest_of_line r7) as [[r8 l]|] eqn:El; [|discriminate].
      injection Ha as <- <-. exact (proj2 (rest_of_line_spec _ _ _ El)). }
  split.
  - exists first, (x :: xs), r1. split; [reflexivity | split; [discriminate | reflexivity]].
  - constructor; [exact (proj2 (line_spec _ _ _ E1))|].
    constructor; [exact (Hc _ _ _ E4) | exact (many0_Forall _ _ Hc _ _ _ E5)].
Qed.

Lemma clean_multiline_output_witness :
  clean_multiline ("0" ++ nl ++ "  a" ++ nl ++ "    ." ++ nl ++ "  b")
    = Some (EmptyString, ["0" ++ nl; "a" ++ nl; nl; "b"]) /\
  Forall one_line ["0" ++ nl; "a" ++ nl; nl; "b"].
Proof.
  assert (H : clean_multiline ("0" ++ nl ++ "  a" ++ nl ++ "    ." ++ nl ++ "  b")
              = Some (EmptyString, ["0" ++ nl; "a" ++ nl; nl; "b"]))
    by (vm_compute; reflexivity).
  split; [exact H|].
  exact (proj2 (clean_multiline_output _ _ _ H)).
Defined.

(** ** Blank lines before paragraphs *)

(** Blank lines (spaces and tabs, then a line ending) in front of a body
    paragraph, or in front of the whole copyright file, make no difference:
    [body_paragraph] and [copyright_file] give the same result with or
    without them. *)
Theorem blank_lines_ignored (bl : list string) (s : string) :
  forallb blank_line bl = true -> starts_blank_line s = false ->
  body_paragraph (String.concat "" bl ++ s) = body_paragraph s /\
  copyright_file (String.concat "" bl ++ s) = copyright_file s.
Proof.
  intros Hbl Hs.
  destruct (blank_lines_skipped bl s Hbl Hs) as [xs H1].
  destruct (blank_lines_skipped [] s eq_refl Hs) as [ys H2]. simpl in H2.
  split.
  - unfold body_paragraph. exact (preceded_same _ _ _ _ _ _ _ H1 H2).
  - unfold copyright_file. unfold map.
    rewrite (delimited_same _ _ _ _ _ _ _ _ H1 H2). reflexivity.
Qed.

Lemma blank_lines_ignored_witness :
  forallb blank_line [nl; " " ++ String "009" nl; "  " ++ crlf] = true /\
  starts_blank_line ("License: MIT" ++ nl) = false /\
  body_paragraph (String.concat "" [nl; " " ++ String "009" nl; "  " ++ crlf] ++
                  "License: MIT" ++ nl) =
  body_paragraph ("License: MIT" ++ nl).
Proof.
  split; [reflexivity|]. split; [reflexivity|].
  exact (proj1 (blank_lines_ignored [nl; " " ++ String "009" nl; "  " ++ crlf]
                 ("License: MIT" ++ nl) eq_refl eq_refl)).
Defined.

(** ** [parse_field_with_trimmed_list] (Copyright and Files) *)

(** Every entry of the list returned by [parse_field_with_trimmed_list]
    (the values of [Copyright::parse] and [Files::parse]) is non-empty and
    unchanged by [str::trim]: no entry is blank or starts or ends with
    whitespace. *)
Theorem trimmed_list_entries (name s r : string) (xs : list string) :
  parse_field_with_trimmed_list name s = Some (r, xs) ->
  Forall (fun x => x <> EmptyString /\ trim x = x) xs.
Proof.
  unfold parse_field_with_trimmed_list, map.
  destruct (many1 (multi_line_field name) s) as [[r0 lines]|]; [|discriminate].
  intro H. injection H as _ <-.
  apply Forall_forall. intros x Hx.
  apply filter_In in Hx as [Hx Hne]. apply in_map_iff in Hx as [y [<- _]].
  split.
  - intro E. rewrite E in Hne. discriminate.
  - apply trim_idem.
Qed.

Lemma trimmed_list_entries_witness :
  parse_field_with_trimmed_list "Files" ("Files: *" ++ nl ++ "Files:  debian/* " ++ nl)
    = Some (EmptyString, ["*"; "debian/*"]) /\
  Forall (fun x => x <> EmptyString /\ trim x = x) ["*"; "debian/*"].
Proof.
  assert (H : parse_field_with_trimmed_list "Files" ("Files: *" ++ nl ++ "Files:  debian/* " ++ nl)
              = Some (EmptyString, ["*"; "debian/*"])) by (vm_compute; reflexivity).
  split; [exact H|].
  exact (trimmed_list_entries _ _ _ _ H).
Defined.

End Extras.
